(** * Kata pod template engine: a shallow embedding of
    [src/kubernetes/templates/template_engine.py] and its properties.

    A text is a [string] read character by character: each [ascii] of it is
    one character of the Python [str], the code point of that number (U+0000
    to U+00FF; code points above U+00FF have no representation here). The
    regular-expression class [\w] is the Unicode-aware one of [re] on [str]
    patterns, restricted to these code points. The string literals of this
    file are ASCII; a character such as U+00E9 is written ["233"%char].
    Python dictionaries whose iteration order matters are association lists
    in insertion order; Python sets are [gset]s. *)

From Stdlib Require Import Ascii String.
From stdpp Require Import base gmap strings list sets.

Local Open Scope string_scope.
#[local] Set Warnings "-register-all,-clear-no-such-hyp".

(** ** Characters and text primitives *)

Module Text.

Definition lbrace : ascii := "{"%char.
Definition rbrace : ascii := "}"%char.
Definition newline : string := String (ascii_of_nat 10) "".
Definition dquote : string := String (ascii_of_nat 34) "".

(** [\w] of the [re] module on a [str] pattern (no [re.ASCII] flag): the
    underscore and every character that is alphanumeric for Unicode. Below
    U+0100 these are the ASCII digits and letters, the letters U+00AA, U+00B5,
    U+00BA, U+00C0-U+00D6, U+00D8-U+00F6, U+00F8-U+00FF, and the numeric
    characters U+00B2, U+00B3, U+00B9, U+00BC-U+00BE. *)
Definition is_word (c : ascii) : bool :=
  let n := N_of_ascii c in
  ((48 <=? n) && (n <=? 57) || (65 <=? n) && (n <=? 90)
   || (97 <=? n) && (n <=? 122) || (n =? 95)
   || (n =? 170) || (n =? 181) || (n =? 186)
   || (192 <=? n) && (n <=? 214) || (216 <=? n) && (n <=? 246)
   || (248 <=? n) && (n <=? 255)
   || (n =? 178) || (n =? 179) || (n =? 185)
   || (188 <=? n) && (n <=? 190))%N.

(** The longest prefix of word characters, and what follows it: the greedy
    [\w+] (or [\w*]) of the pattern. *)
Fixpoint span_word (s : string) : string * string :=
  match s with
  | "" => ("", "")
  | String c s' =>
      if is_word c
      then let '(w, r) := span_word s' in (String c w, r)
      else ("", s)
  end.

(** One attempt of the pattern [\{\{(\w+)\}\}] anchored at the head of [s]:
    the captured group and the text after the match. A shorter [\w+] can never
    be followed by a closing brace, so backtracking does not add matches. *)
Definition match_at (s : string) : option (string * string) :=
  match s with
  | String "{" (String "{" r) =>
      match span_word r with
      | (String c w, String "}" (String "}" rest)) => Some (String c w, rest)
      | _ => None
      end
  | _ => None
  end.

(** [re.findall(pattern, s)]: leftmost matches, scanned left to right without
    overlap. [skip] counts the characters of the current match still to be
    stepped over. *)
Fixpoint findall_from (skip : nat) (s : string) : list string :=
  match s with
  | "" => []
  | String _ s' =>
      match skip with
      | S k => findall_from k s'
      | O =>
          match match_at s with
          | Some (w, _) => w :: findall_from (String.length w + 3) s'
          | None => findall_from 0 s'
          end
      end
  end.

Definition findall (s : string) : list string := findall_from 0 s.

(** [str.replace(old, new)] for a non-empty [old]. *)
Fixpoint replace_from (skip : nat) (old new s : string) : string :=
  match s with
  | "" => ""
  | String c s' =>
      match skip with
      | S k => replace_from k old new s'
      | O =>
          if String.prefix old s
          then new +:+ replace_from (String.length old - 1) old new s'
          else String c (replace_from 0 old new s')
      end
  end.

(** [str.replace] with an empty [old] puts [new] before every character and
    at the end. *)
Fixpoint interleave (new s : string) : string :=
  match s with
  | "" => new
  | String c s' => new +:+ String c (interleave new s')
  end.

Definition replace (old new s : string) : string :=
  match old with
  | "" => interleave new s
  | _ => replace_from 0 old new s
  end.

(** [sep.join(lines)] *)
Definition join (sep : string) (lines : list string) : string :=
  String.concat sep lines.

(** No opening brace in the text. *)
Fixpoint no_open (s : string) : bool :=
  match s with
  | "" => true
  | String c s' => negb (Ascii.eqb c lbrace) && no_open s'
  end.

(** Neither brace in the text. *)
Fixpoint no_brace (s : string) : bool :=
  match s with
  | "" => true
  | String c s' =>
      negb (Ascii.eqb c lbrace) && negb (Ascii.eqb c rbrace) && no_brace s'
  end.

End Text.

Import Text.

(** ** Exceptions and parsed documents *)

(** What [yaml.safe_load] can return. Mapping keys are values themselves;
    entries are kept in document order. *)
Inductive yaml_value : Type :=
| YNull
| YBool (b : bool)
| YInt (z : Z)
| YFloat (repr : string)
| YStr (s : string)
| YBytes (data : string)
| YTimestamp (repr : string)
| YSeq (items : list yaml_value)
| YSet (members : list yaml_value)
| YMap (entries : list (yaml_value * yaml_value)).

(** The messages [validate_yaml] raises [ValidationError] with:
    - [InvalidSyntax diag]: "Invalid YAML syntax: <diag>"
    - [InvalidStructure]: "YAML must be a dictionary/object"
    - [MissingField f]: "Missing required field: <f>"
    - [WrongKind v]: "Expected kind 'Pod', got '<v>'"
    - [InvalidRuntimeClass]: "runtimeClassName must be 'kata'" *)
Inductive validation_msg : Type :=
| InvalidSyntax (diag : string)
| InvalidStructure
| MissingField (field : string)
| WrongKind (actual : yaml_value)
| InvalidRuntimeClass.

(** The exceptions that leave the engine. [RenderingError] carries the set
    its message prints; [AttributeError] is the interpreter's, raised by a
    [.get] on a value that has no such method. *)
Inductive exn : Type :=
| FileNotFoundError (path : string)
| RenderingError (missing : gset string)
| ValidationError (msg : validation_msg)
| AttributeError
| OSError (path : string).

(** Computations that may raise. *)
Definition result (A : Type) : Type := exn + A.

Definition raise {A : Type} (e : exn) : result A := inl e.
Definition ret {A : Type} (a : A) : result A := inr a.
Definition bind {A B : Type} (m : result A) (k : A -> result B) : result B :=
  match m with
  | inl e => inl e
  | inr a => k a
  end.

Notation "'let*' x := m 'in' k" := (bind m (fun x => k))
  (at level 10, x name, m at level 100, k at level 200).
Notation "'run' m 'in' k" := (bind m (fun _ => k))
  (at level 10, m at level 100, k at level 200).

Definition is_ok {A : Type} (r : result A) : bool :=
  match r with
  | inr _ => true
  | inl _ => false
  end.

(** ** The variable set *)

Record TemplateVariables : Type := {
  AGENT_ID : string;
  NAMESPACE : string;
  IMAGE : string;
  CPU_LIMIT : string;
  MEMORY_LIMIT : string;
  ENV_VARS : string;
  VOLUME_MOUNTS : string;
  VOLUMES : string
}.

(** The dataclass constructor with every default taken. *)
Definition default_variables (agent_id : string) : TemplateVariables :=
  {| AGENT_ID := agent_id;
     NAMESPACE := "default";
     IMAGE := "godel/agent:latest";
     CPU_LIMIT := "500m";
     MEMORY_LIMIT := "512Mi";
     ENV_VARS := "";
     VOLUME_MOUNTS := "";
     VOLUMES := "" |}.

(** A [Dict[str, str]] in insertion order. *)
Abbreviation dict := (list (string * string)).

Definition to_dict (self : TemplateVariables) : dict :=
  [ ("AGENT_ID", AGENT_ID self);
    ("NAMESPACE", NAMESPACE self);
    ("IMAGE", IMAGE self);
    ("CPU_LIMIT", CPU_LIMIT self);
    ("MEMORY_LIMIT", MEMORY_LIMIT self);
    ("ENV_VARS", ENV_VARS self);
    ("VOLUME_MOUNTS", VOLUME_MOUNTS self);
    ("VOLUMES", VOLUMES self) ].

(** [set(var_dict.keys())] *)
Definition keys (var_dict : dict) : gset string := list_to_set (var_dict.*1).

(** [var_dict.get(key)] *)
Fixpoint dict_lookup (var_dict : dict) (key : string) : option string :=
  match var_dict with
  | [] => None
  | (k, v) :: rest => if String.eqb k key then Some v else dict_lookup rest key
  end.

(** ** Rendering *)

(** [f"{{{{{key}}}}}"] *)
Definition placeholder (key : string) : string := "{{" +:+ key +:+ "}}".

(** [set(re.findall(pattern, template))] *)
Definition placeholders (template : string) : gset string :=
  list_to_set (findall template).

(** The loop of lines 86-89: one [str.replace] per entry, in iteration order,
    each over the text the previous one produced. *)
Definition substitute (var_dict : dict) (template : string) : string :=
  fold_left (fun result kv => replace (placeholder kv.1) kv.2 result)
            var_dict template.

(** Lines 77-91 of [render], on the template text and the mapping. *)
Definition render_text (template : string) (var_dict : dict) : result string :=
  let matches := placeholders template in
  let missing := matches ∖ keys var_dict in
  if decide (missing = ∅)
  then ret (substitute var_dict template)
  else raise (RenderingError missing).

(** ** The engine and the file system it reads and writes *)

Record filesystem : Type := {
  files : gmap string string;   (* path to content of every existing file *)
  locked : gset string          (* paths a write is refused at *)
}.

Record engine : Type := {
  template_path : string;
  _template_content : option string
}.

(** [__init__]: [module_dir] is the directory of the module's own file. *)
Definition init (module_dir : string) (template_path : option string) : engine :=
  match template_path with
  | Some (String c p) =>
      {| template_path := String c p; _template_content := None |}
  | _ =>
      {| template_path := module_dir +:+ "/kata-pod.yaml";
         _template_content := None |}
  end.

Definition _load_template (fs : filesystem) (self : engine)
  : result string * engine :=
  match files fs !! template_path self with
  | None => (raise (FileNotFoundError (template_path self)), self)
  | Some text =>
      (ret text,
       {| template_path := template_path self;
          _template_content := Some text |})
  end.

(** [self._template_content or self._load_template()]: [None] and the empty
    string are both false. *)
Definition cached_or_load (fs : filesystem) (self : engine)
  : result string * engine :=
  match _template_content self with
  | Some (String c s) => (ret (String c s), self)
  | _ => _load_template fs self
  end.

(** [render] with the mapping already built: any object whose [to_dict]
    returns [var_dict]. *)
Definition render_dict (fs : filesystem) (self : engine) (var_dict : dict)
  : result string * engine :=
  let '(loaded, self') := cached_or_load fs self in
  (let* template := loaded in render_text template var_dict, self').

Definition render (fs : filesystem) (self : engine)
    (variables : TemplateVariables) : result string * engine :=
  render_dict fs self (to_dict variables).

(** [Path.write_text], as far as the engine relies on it: a write that
    is accepted replaces the content at the path, a write refused on opening
    changes nothing. Paths are compared as written, and a write that fails
    after the file was opened is not represented. *)
Definition write_text (fs : filesystem) (path text : string)
  : result unit * filesystem :=
  if decide (path ∈ locked fs)
  then (raise (OSError path), fs)
  else (ret (), {| files := <[path := text]> (files fs); locked := locked fs |}).

(** ** Validation *)

(** [key in d] and [d.get(key)] for a string key: only a string key of the
    mapping compares equal to it. *)
Fixpoint map_get (entries : list (yaml_value * yaml_value)) (key : string)
  : option yaml_value :=
  match entries with
  | [] => None
  | (YStr k, v) :: rest => if String.eqb k key then Some v else map_get rest key
  | _ :: rest => map_get rest key
  end.

Definition contains (entries : list (yaml_value * yaml_value)) (key : string)
  : bool :=
  match map_get entries key with
  | Some _ => true
  | None => false
  end.

(** [d.get(key)], absent keys giving [None]. *)
Definition get_or_none (entries : list (yaml_value * yaml_value))
    (key : string) : yaml_value :=
  default YNull (map_get entries key).

(** [v == text] for a string literal [text]. *)
Definition str_eq (v : yaml_value) (text : string) : bool :=
  match v with
  | YStr s => String.eqb s text
  | _ => false
  end.

Definition required_fields : list string :=
  ["apiVersion"; "kind"; "metadata"; "spec"].

(** The loop of lines 105-107: the first absent field raises. *)
Fixpoint check_required (parsed : list (yaml_value * yaml_value))
    (fields : list string) : result unit :=
  match fields with
  | [] => ret ()
  | field :: rest =>
      if contains parsed field
      then check_required parsed rest
      else raise (ValidationError (MissingField field))
  end.

(** [spec.get("runtimeClassName")]: only a mapping has a [get]. *)
Definition spec_get (spec : yaml_value) (key : string) : result yaml_value :=
  match spec with
  | YMap entries => ret (get_or_none entries key)
  | _ => raise AttributeError
  end.

Section Engine.

(** [yaml.safe_load]: the parsed document, or the text of the [YAMLError].
    An exception of the parser that is no [YAMLError] is not caught at line
    97; such runs of the parser have no outcome here, and what is proved of
    [validate_yaml] is about the runs in which the parser returns or raises
    [YAMLError]. *)
Variable safe_load : string -> string + yaml_value.

Definition validate_yaml (yaml_content : string) : result yaml_value :=
  match safe_load yaml_content with
  | inl diag => raise (ValidationError (InvalidSyntax diag))
  | inr (YMap parsed) =>
      run check_required parsed required_fields in
      if negb (str_eq (get_or_none parsed "kind") "Pod")
      then raise (ValidationError (WrongKind (get_or_none parsed "kind")))
      else
        let spec := default (YMap []) (map_get parsed "spec") in
        let* runtime := spec_get spec "runtimeClassName" in
        if negb (str_eq runtime "kata")
        then raise (ValidationError InvalidRuntimeClass)
        else ret (YMap parsed)
  | inr _ => raise (ValidationError InvalidStructure)
  end.

Definition render_and_validate (fs : filesystem) (self : engine)
    (variables : TemplateVariables) : result yaml_value * engine :=
  let '(rendered, self') := render fs self variables in
  (let* text := rendered in validate_yaml text, self').

(** Returns the outcome, the engine and the file system afterwards. *)
Definition save_rendered (fs : filesystem) (self : engine)
    (variables : TemplateVariables) (output_path : string)
  : result string * engine * filesystem :=
  let '(rendered, self') := render fs self variables in
  match rendered with
  | inl e => (raise e, self', fs)
  | inr text =>
      match validate_yaml text with
      | inl e => (raise e, self', fs)
      | inr _ =>
          let '(written, fs') := write_text fs output_path text in
          (run written in ret output_path, self', fs')
      end
  end.

End Engine.

(** ** Formatting helpers *)

Definition format_env_vars (env_dict : dict) : string :=
  match env_dict with
  | [] => " []"
  | _ =>
      let lines :=
        fold_left
          (fun lines kv =>
             (lines ++ [""]
                    ++ ["    - name: " +:+ kv.1]
                    ++ ["      value: " +:+ dquote +:+ kv.2 +:+ dquote])%list)
          env_dict [] in
      join newline lines
  end.

Definition format_volume_mounts (mounts : dict) : string :=
  match mounts with
  | [] => " []"
  | _ =>
      let lines :=
        fold_left
          (fun lines kv =>
             (lines ++ [""]
                    ++ ["    - name: " +:+ kv.1]
                    ++ ["      mountPath: " +:+ kv.2])%list)
          mounts [] in
      join newline lines
  end.

(** A property of a volume: a mapping (keys and values by their [str] form)
    or anything else, by its [str] form. *)
Inductive prop_value : Type :=
| PDict (items : dict)
| PScalar (repr : string).

Definition format_volumes (volumes : list (string * list (string * prop_value)))
  : string :=
  match volumes with
  | [] => " []"
  | _ =>
      let lines :=
        fold_left
          (fun lines vol =>
             fold_left
               (fun lines kv =>
                  match kv.2 with
                  | PDict items =>
                      fold_left
                        (fun lines sub =>
                           (lines ++ ["      " +:+ sub.1 +:+ ": " +:+ sub.2])%list)
                        items
                        (lines ++ ["    " +:+ kv.1 +:+ ":"])%list
                  | PScalar repr =>
                      (lines ++ ["    " +:+ kv.1 +:+ ": " +:+ repr])%list
                  end)
               vol.2
               (lines ++ [""] ++ ["  - name: " +:+ vol.1])%list)
          volumes [] in
      join newline lines
  end.

(** ** Templates as segments

    A template whose every opening brace belongs to a placeholder token is a
    sequence of literal runs and tokens. *)
Inductive segment : Type :=
| Lit (text : string)
| Tok (name : string).

Definition seg_text (g : segment) : string :=
  match g with
  | Lit text => text
  | Tok name => placeholder name
  end.

Fixpoint flatten (segs : list segment) : string :=
  match segs with
  | [] => ""
  | g :: rest => seg_text g +:+ flatten rest
  end.

(** Literal runs have no opening brace, token names no brace at all. *)
Definition seg_ok (g : segment) : bool :=
  match g with
  | Lit text => no_open text
  | Tok name => no_brace name
  end.

(** What one [replace] of the loop does to a segment. *)
Definition subst_seg (key value : string) (g : segment) : segment :=
  match g with
  | Tok name => if String.eqb name key then Lit value else Tok name
  | Lit text => Lit text
  end.

(** A segment after all replacements: tokens of supplied names give way to
    their values. *)
Definition fill_seg (var_dict : dict) (g : segment) : segment :=
  match g with
  | Tok name =>
      match dict_lookup var_dict name with
      | Some value => Lit value
      | None => Tok name
      end
  | Lit text => Lit text
  end.

(** A captured group: one or more word characters. *)
Fixpoint all_word (s : string) : bool :=
  match s with
  | "" => true
  | String c s' => is_word c && all_word s'
  end.

Definition is_name (s : string) : bool :=
  match s with
  | "" => false
  | _ => all_word s
  end.

(** Tokens carry names the pattern can capture. *)
Definition seg_wf (g : segment) : bool :=
  match g with
  | Lit text => no_open text
  | Tok name => is_name name
  end.

Fixpoint tok_names (segs : list segment) : list string :=
  match segs with
  | [] => []
  | Tok name :: rest => name :: tok_names rest
  | Lit _ :: rest => tok_names rest
  end.

(** Mappings whose keys have no brace and whose values no opening brace. *)
Definition entry_ok (kv : string * string) : bool :=
  no_brace kv.1 && no_open kv.2.

(** ** The list-item blocks of the formatting helpers

    What each entry of the mapping contributes, line by line. *)

Definition env_block (kv : string * string) : list string :=
  ["    - name: " +:+ kv.1;
   "      value: " +:+ dquote +:+ kv.2 +:+ dquote].

Definition mount_block (kv : string * string) : list string :=
  ["    - name: " +:+ kv.1;
   "      mountPath: " +:+ kv.2].

Definition prop_lines (kv : string * prop_value) : list string :=
  match kv.2 with
  | PDict items =>
      ("    " +:+ kv.1 +:+ ":")
        :: map (fun sub => "      " +:+ sub.1 +:+ ": " +:+ sub.2) items
  | PScalar repr => ["    " +:+ kv.1 +:+ ": " +:+ repr]
  end.

Definition volume_block (vol : string * list (string * prop_value))
  : list string :=
  ("  - name: " +:+ vol.1) :: concat (map prop_lines vol.2).

(** A blank line, then the block. *)
Definition entry_text (block : list string) : string :=
  join newline ("" :: block).

(** ** Notions used to state further properties *)

(** [old in s]: the text [old] occurs somewhere in [s]. *)
Fixpoint occursb (old s : string) : bool :=
  String.prefix old s
  || match s with
     | "" => false
     | String _ s' => occursb old s'
     end.

(** The keys [to_dict] always returns, in its order. *)
Definition recognized_names : list string :=
  ["AGENT_ID"; "NAMESPACE"; "IMAGE"; "CPU_LIMIT"; "MEMORY_LIMIT"; "ENV_VARS";
   "VOLUME_MOUNTS"; "VOLUMES"].

(** Mappings given to the formatting helpers with no opening brace in any
    key or value. *)
Definition dict_no_open (d : dict) : bool :=
  forallb (fun kv => no_open kv.1 && no_open kv.2) d.

Definition prop_no_open (kv : string * prop_value) : bool :=
  no_open kv.1
  && match kv.2 with
     | PDict items => dict_no_open items
     | PScalar repr => no_open repr
     end.

Definition volumes_no_open
    (volumes : list (string * list (string * prop_value))) : bool :=
  forallb (fun vol => no_open vol.1 && forallb prop_no_open vol.2) volumes.

(** ** Facts about the text primitives *)

Module TextFacts.

Lemma sapp_cons (c : ascii) (s t : string) : String c s +:+ t = String c (s +:+ t).
Proof. reflexivity. Qed.

Lemma sapp_nil_l (s : string) : "" +:+ s = s.
Proof. reflexivity. Qed.

Lemma sapp_assoc (a b c : string) : (a +:+ b) +:+ c = a +:+ (b +:+ c).
Proof. induction a as [|x a IH]; [done|]. by rewrite !sapp_cons, IH. Qed.

Lemma slength_app (a b : string) :
  String.length (a +:+ b) = String.length a + String.length b.
Proof. induction a as [|x a IH]; [done|]. rewrite sapp_cons. simpl. by rewrite IH. Qed.

Lemma prefix_app (p t : string) : String.prefix p (p +:+ t) = true.
Proof.
  induction p as [|x p IH]; [by destruct t|].
  rewrite sapp_cons. simpl. by destruct (ascii_dec x x).
Qed.

Lemma prefix_inv (p s : string) :
  String.prefix p s = true -> exists t, s = p +:+ t.
Proof.
  revert s. induction p as [|x p IH]; intros s H.
  - by exists s.
  - destruct s as [|y s]; [done|]. simpl in H.
    destruct (ascii_dec x y) as [->|]; [|done].
    destruct (IH s H) as [t ->]. by exists t.
Qed.

Lemma prefix_cons (x y : ascii) (p s : string) :
  String.prefix (String x p) (String y s)
  = if ascii_dec x y then String.prefix p s else false.
Proof. reflexivity. Qed.

Lemma prefix_same (x : ascii) (p s : string) :
  String.prefix (String x p) (String x s) = String.prefix p s.
Proof. rewrite prefix_cons. by destruct (ascii_dec x x). Qed.

Lemma prefix_head (x y : ascii) (p s : string) :
  x <> y -> String.prefix (String x p) (String y s) = false.
Proof. intros Hne. rewrite prefix_cons. by destruct (ascii_dec x y). Qed.

(** *** [replace_from] *)

Lemma replace_from_skip (p old new r : string) :
  replace_from (String.length p) old new (p +:+ r) = replace_from 0 old new r.
Proof. induction p as [|x p IH]; [done|]. rewrite sapp_cons. by simpl. Qed.

Lemma replace_from_hit (c : ascii) (old new t : string) :
  replace_from 0 (String c old) new (String c old +:+ t)
  = new +:+ replace_from 0 (String c old) new t.
Proof.
  rewrite sapp_cons. cbn [replace_from].
  rewrite <- sapp_cons, prefix_app.
  replace (String.length (String c old) - 1) with (String.length old)
    by (simpl; lia).
  by rewrite replace_from_skip.
Qed.

Lemma replace_from_miss (old new : string) (c : ascii) (s : string) :
  String.prefix old (String c s) = false ->
  replace_from 0 old new (String c s) = String c (replace_from 0 old new s).
Proof. intros H. cbn [replace_from]. by rewrite H. Qed.

Lemma no_open_cons (c : ascii) (s : string) :
  no_open (String c s) = true <-> c <> lbrace /\ no_open s = true.
Proof.
  simpl. rewrite andb_true_iff, negb_true_iff.
  by destruct (Ascii.eqb_spec c lbrace); naive_solver.
Qed.

Lemma no_open_app (a b : string) :
  no_open (a +:+ b) = true <-> no_open a = true /\ no_open b = true.
Proof.
  induction a as [|x a IH]; [naive_solver|].
  rewrite sapp_cons, !no_open_cons, IH. naive_solver.
Qed.

Lemma no_brace_cons (c : ascii) (s : string) :
  no_brace (String c s) = true
  <-> c <> lbrace /\ c <> rbrace /\ no_brace s = true.
Proof.
  simpl. rewrite !andb_true_iff, !negb_true_iff.
  destruct (Ascii.eqb_spec c lbrace), (Ascii.eqb_spec c rbrace); naive_solver.
Qed.

Lemma no_brace_no_open (s : string) : no_brace s = true -> no_open s = true.
Proof.
  induction s as [|c s IH]; [done|].
  rewrite no_brace_cons, no_open_cons. naive_solver.
Qed.

(** A run without opening brace is copied by a replacement of a text that
    starts with one. *)
Lemma replace_from_no_open (p old new t : string) :
  no_open p = true ->
  replace_from 0 (String lbrace old) new (p +:+ t)
  = p +:+ replace_from 0 (String lbrace old) new t.
Proof.
  induction p as [|x p IH]; intros H; [done|].
  apply no_open_cons in H as [Hx Hp].
  rewrite !sapp_cons, replace_from_miss by (apply prefix_head; congruence).
  by rewrite IH.
Qed.

End TextFacts.

(** ** Facts about [findall] *)

Module FindFacts.
Import TextFacts.

Lemma is_word_not_lbrace (c : ascii) : is_word c = true -> c <> lbrace.
Proof. by intros H ->. Qed.

Lemma is_word_not_rbrace (c : ascii) : is_word c = true -> c <> rbrace.
Proof. by intros H ->. Qed.

Lemma all_word_no_brace (s : string) : all_word s = true -> no_brace s = true.
Proof.
  induction s as [|c s IH]; [done|]. simpl. intros [Hc Hs]%andb_true_iff.
  apply no_brace_cons. split_and!;
    [by apply is_word_not_lbrace|by apply is_word_not_rbrace|by apply IH].
Qed.

Lemma is_name_all_word (s : string) : is_name s = true -> all_word s = true.
Proof. by destruct s. Qed.

Lemma is_name_no_brace (s : string) : is_name s = true -> no_brace s = true.
Proof. intros H. by apply all_word_no_brace, is_name_all_word. Qed.

(** [span_word] splits the text and takes word characters only. *)
Lemma span_word_spec (s w r : string) :
  span_word s = (w, r) -> s = w +:+ r /\ all_word w = true.
Proof.
  revert w r. induction s as [|c s IH]; intros w r H; simpl in H.
  - by injection H as <- <-.
  - destruct (is_word c) eqn:Hc.
    + destruct (span_word s) as [w' r'] eqn:E. injection H as <- <-.
      destruct (IH _ _ eq_refl) as [-> Hw]. split; [done|].
      simpl. by rewrite Hc.
    + by injection H as <- <-.
Qed.

(** A word run stops at a closing brace. *)
Lemma span_word_name (w t : string) :
  all_word w = true -> span_word (w +:+ String rbrace t) = (w, String rbrace t).
Proof.
  induction w as [|c w IH]; [done|].
  cbn [all_word]. intros [Hc Hw]%andb_true_iff.
  rewrite sapp_cons. cbn [span_word]. by rewrite Hc, IH.
Qed.

Lemma match_at_token (n t : string) :
  is_name n = true -> match_at (placeholder n +:+ t) = Some (n, t).
Proof.
  intros Hn. unfold placeholder. rewrite !sapp_assoc.
  change (match_at _) with
    (match span_word (n +:+ String rbrace (String rbrace t)) with
     | (String c w, String "}" (String "}" rest)) => Some (String c w, rest)
     | _ => None
     end).
  rewrite span_word_name by (by apply is_name_all_word).
  by destruct n.
Qed.

Lemma match_at_inv (s w rest : string) :
  match_at s = Some (w, rest) ->
  is_name w = true /\ s = placeholder w +:+ rest.
Proof.
  unfold match_at. intros H.
  destruct s as [|c0 [|c1 r]]; [done| |].
  { by destruct c0 as [[] [] [] [] [] [] [] []]. }
  assert (c0 = lbrace /\ c1 = lbrace /\
          match span_word r with
          | (String c w, String "}" (String "}" rest)) => Some (String c w, rest)
          | _ => None
          end = Some (w, rest)) as (-> & -> & H').
  { destruct c0 as [[] [] [] [] [] [] [] []]; try done;
    destruct c1 as [[] [] [] [] [] [] [] []]; done. }
  clear H. destruct (span_word r) as [w' r'] eqn:E.
  apply span_word_spec in E as [-> Hw].
  destruct w' as [|c w']; [done|].
  destruct r' as [|d0 [|d1 r']]; try done.
  { by destruct d0 as [[] [] [] [] [] [] [] []]. }
  assert (d0 = rbrace /\ d1 = rbrace /\ String c w' = w /\ r' = rest)
    as (-> & -> & <- & <-).
  { destruct d0 as [[] [] [] [] [] [] [] []]; try done;
    destruct d1 as [[] [] [] [] [] [] [] []]; try done.
    by injection H' as <- <-. }
  split; [done|]. unfold placeholder. by rewrite !sapp_assoc.
Qed.

Lemma match_at_head (c : ascii) (s : string) :
  c <> lbrace -> match_at (String c s) = None.
Proof.
  intros Hc. destruct (match_at _) as [[w rest]|] eqn:E; [|done].
  apply match_at_inv in E as [_ E]. by injection E as ->.
Qed.

Lemma findall_from_skip (p r : string) :
  findall_from (String.length p) (p +:+ r) = findall_from 0 r.
Proof. induction p as [|x p IH]; [done|]. rewrite sapp_cons. by simpl. Qed.

Lemma findall_from_0 (c : ascii) (s : string) :
  findall_from 0 (String c s)
  = match match_at (String c s) with
    | Some (w, _) => w :: findall_from (String.length w + 3) s
    | None => findall_from 0 s
    end.
Proof. reflexivity. Qed.

Lemma findall_literal (p t : string) :
  no_open p = true -> findall_from 0 (p +:+ t) = findall_from 0 t.
Proof.
  induction p as [|c p IH]; [done|]. intros [Hc Hp]%no_open_cons.
  rewrite sapp_cons, findall_from_0, match_at_head by done. by apply IH.
Qed.

Lemma token_app (n t : string) :
  placeholder n +:+ t
  = String lbrace (String lbrace (n +:+ String rbrace (String rbrace t))).
Proof. unfold placeholder. by rewrite !sapp_assoc. Qed.

Lemma findall_token (n t : string) :
  is_name n = true ->
  findall_from 0 (placeholder n +:+ t) = n :: findall_from 0 t.
Proof.
  intros Hn. pose proof (match_at_token n t Hn) as Hm.
  rewrite token_app in *. rewrite findall_from_0, Hm. f_equal.
  rewrite <- (findall_from_skip (String lbrace (n +:+ "}}")) t).
  rewrite sapp_cons, sapp_assoc. f_equal.
  change (String.length (String lbrace (n +:+ "}}")))
    with (S (String.length (n +:+ "}}"))).
  rewrite slength_app. change (String.length "}}") with 2. lia.
Qed.

(** On a segmented template, [findall] returns the token names in order. *)
Lemma findall_flatten (segs : list segment) :
  Forall (fun g => seg_wf g = true) segs ->
  findall (flatten segs) = tok_names segs.
Proof.
  unfold findall. induction 1 as [|[text|name] segs Hg _ IH]; [done| |];
    cbn [flatten seg_text tok_names seg_wf] in *.
  - by rewrite findall_literal.
  - by rewrite findall_token, IH.
Qed.

End FindFacts.

(** ** Replacement over segmented templates *)

Module SegFacts.
Import TextFacts.

Lemma placeholder_eq (key : string) :
  placeholder key = String lbrace (String lbrace (key +:+ "}}")).
Proof. reflexivity. Qed.

Lemma replace_placeholder (key value s : string) :
  replace (placeholder key) value s = replace_from 0 (placeholder key) value s.
Proof. reflexivity. Qed.

(** Two brace-free names followed by a closing brace agree when one text is
    a prefix of the other. *)
Lemma name_prefix_inj (a n t u : string) :
  no_brace a = true -> no_brace n = true ->
  String.prefix (a +:+ String rbrace t) (n +:+ String rbrace u) = true ->
  a = n.
Proof.
  revert n. induction a as [|x a IH]; intros [|y n] Ha Hn H.
  - done.
  - apply no_brace_cons in Hn as (_ & Hy & _).
    rewrite sapp_nil_l, sapp_cons, prefix_head in H; [done|congruence].
  - apply no_brace_cons in Ha as (_ & Hx & _).
    rewrite sapp_nil_l, sapp_cons, prefix_head in H; [done|congruence].
  - apply no_brace_cons in Ha as (_ & _ & Ha).
    apply no_brace_cons in Hn as (_ & _ & Hn).
    rewrite !sapp_cons, prefix_cons in H.
    destruct (ascii_dec x y) as [->|]; [|done].
    f_equal. by apply IH.
Qed.

Lemma placeholder_prefix_inj (a n t : string) :
  no_brace a = true -> no_brace n = true ->
  String.prefix (placeholder a) (placeholder n +:+ t) = true -> a = n.
Proof.
  intros Ha Hn H. rewrite !placeholder_eq, !sapp_cons, !prefix_same in H.
  rewrite sapp_assoc in H. by apply name_prefix_inj in H.
Qed.

(** The token of another name is copied. *)
Lemma replace_other_token (a value n t : string) :
  no_brace a = true -> no_brace n = true -> a <> n ->
  replace_from 0 (placeholder a) value (placeholder n +:+ t)
  = placeholder n +:+ replace_from 0 (placeholder a) value t.
Proof.
  intros Ha Hn Hne.
  assert (String.prefix (placeholder a) (placeholder n +:+ t) = false) as H0.
  { destruct (String.prefix _ _) eqn:E; [|done].
    by apply placeholder_prefix_inj in E. }
  rewrite (placeholder_eq n), !sapp_cons in *.
  rewrite replace_from_miss by done.
  assert (exists c r, n +:+ "}}" = String c r /\ c <> lbrace
                      /\ no_open r = true) as (c & r & E & Hc & Hr).
  { destruct n as [|c n].
    - exists rbrace, "}". by repeat split.
    - apply no_brace_cons in Hn as (Hc & _ & Hn).
      exists c, (n +:+ "}}"). repeat split; [done|].
      apply no_open_app. split; [by apply no_brace_no_open|done]. }
  rewrite E, sapp_cons.
  rewrite replace_from_miss
    by (rewrite placeholder_eq, prefix_same; apply prefix_head; congruence).
  do 2 f_equal. rewrite <- !sapp_cons, placeholder_eq.
  apply replace_from_no_open. by apply no_open_cons.
Qed.

Lemma replace_own_token (key value t : string) :
  replace_from 0 (placeholder key) value (placeholder key +:+ t)
  = value +:+ replace_from 0 (placeholder key) value t.
Proof. rewrite placeholder_eq. apply replace_from_hit. Qed.

Lemma replace_literal (key value p t : string) :
  no_open p = true ->
  replace_from 0 (placeholder key) value (p +:+ t)
  = p +:+ replace_from 0 (placeholder key) value t.
Proof. rewrite placeholder_eq. apply replace_from_no_open. Qed.

(** One replacement of the loop acts segment by segment. *)
Lemma replace_flatten (key value : string) (segs : list segment) :
  no_brace key = true ->
  Forall (fun g => seg_ok g = true) segs ->
  replace (placeholder key) value (flatten segs)
  = flatten (map (subst_seg key value) segs).
Proof.
  intros Hk Hs. rewrite replace_placeholder.
  induction Hs as [|g segs Hg _ IH]; [done|].
  destruct g as [text|name]; cbn [flatten map seg_text subst_seg seg_ok] in *.
  - by rewrite replace_literal, IH.
  - destruct (String.eqb_spec name key) as [->|Hne].
    + by rewrite replace_own_token, IH.
    + by rewrite replace_other_token, IH.
Qed.

Lemma subst_seg_ok (key value : string) (segs : list segment) :
  no_open value = true ->
  Forall (fun g => seg_ok g = true) segs ->
  Forall (fun g => seg_ok g = true) (map (subst_seg key value) segs).
Proof.
  intros Hv Hs. apply Forall_map. eapply Forall_impl; [exact Hs|].
  intros [text|name] H; simpl; [done|].
  by destruct (String.eqb name key).
Qed.

Lemma fill_subst_seg (key value : string) (d : dict) (g : segment) :
  fill_seg d (subst_seg key value g) = fill_seg ((key, value) :: d) g.
Proof.
  destruct g as [text|name]; simpl; [done|].
  rewrite (String.eqb_sym key name). by destruct (String.eqb name key).
Qed.

(** The whole loop, on a segmented template: every token of a supplied name
    gives way to its value, everything else stays. *)
Lemma substitute_flatten (d : dict) (segs : list segment) :
  Forall (fun kv => entry_ok kv = true) d ->
  Forall (fun g => seg_ok g = true) segs ->
  substitute d (flatten segs) = flatten (map (fill_seg d) segs).
Proof.
  intros Hd. revert segs.
  induction Hd as [|[key value] d Hkv _ IH]; intros segs Hs.
  - simpl. f_equal. induction segs as [|[?|?] segs IHs]; simpl; f_equal;
      apply IHs; by inversion Hs.
  - apply andb_true_iff in Hkv as [Hk Hv]. simpl in Hk, Hv.
    unfold substitute in *. cbn [fold_left fst snd].
    rewrite replace_flatten by done.
    rewrite IH by (by apply subst_seg_ok).
    f_equal. rewrite map_map. apply map_ext. intros g. apply fill_subst_seg.
Qed.

End SegFacts.

(** ** Occurrences of tokens *)

Module OccFacts.
Import TextFacts FindFacts.

Lemma findall_from_S (k : nat) (c : ascii) (s : string) :
  findall_from (S k) (String c s) = findall_from k s.
Proof. reflexivity. Qed.

(** Every captured name is a name and occurs as a token. *)
Lemma findall_from_sound (s : string) (k : nat) (x : string) :
  x ∈ findall_from k s ->
  is_name x = true /\ exists pre post, s = pre +:+ placeholder x +:+ post.
Proof.
  revert k. induction s as [|c s IH]; intros k H.
  { by apply elem_of_nil in H. }
  assert (forall n, x ∈ findall_from n s ->
            is_name x = true /\
            exists pre post, String c s = pre +:+ placeholder x +:+ post)
    as Hrec.
  { intros n Hn. destruct (IH n Hn) as (Hx & pre & post & ->).
    split; [done|]. by exists (String c pre), post. }
  destruct k as [|k]; [|by apply (Hrec k)].
  rewrite findall_from_0 in H.
  destruct (match_at (String c s)) as [[w rest]|] eqn:E; [|by apply (Hrec 0)].
  apply elem_of_cons in H as [->|H]; [|by eapply Hrec].
  apply match_at_inv in E as [Hx E]. split; [done|].
  exists "", rest. by rewrite E.
Qed.

(** A word run before two closing braces ends before any opening brace. *)
Lemma word_run_before_open (w pre u rest : string) :
  all_word w = true ->
  pre +:+ String lbrace u = w +:+ String rbrace (String rbrace rest) ->
  String.length w + 2 <= String.length pre.
Proof.
  revert pre. induction w as [|a w IH]; intros pre Hw E.
  - rewrite sapp_nil_l in E.
    destruct pre as [|c0 [|c1 pre]]; [done| |simpl; lia].
    rewrite !sapp_cons, sapp_nil_l in E. by injection E.
  - cbn [all_word] in Hw. apply andb_true_iff in Hw as [Ha Hw].
    destruct pre as [|c0 pre].
    + rewrite sapp_nil_l, sapp_cons in E. injection E as <- _.
      by apply is_word_not_lbrace in Ha.
    + rewrite !sapp_cons in E. injection E as _ E.
      apply IH in E; [|done]. simpl. lia.
Qed.

(** A match never runs into a later token. *)
Lemma match_no_overlap (c : ascii) (pre x post w rest : string) :
  is_name w = true ->
  String c (pre +:+ placeholder x +:+ post) = placeholder w +:+ rest ->
  String.length w + 3 <= String.length pre.
Proof.
  intros Hw E. rewrite !token_app in E. injection E as _ E.
  destruct pre as [|c0 pre].
  - rewrite sapp_nil_l in E. injection E as E.
    destruct w as [|a w]; [done|]. rewrite sapp_cons in E. injection E as <- _.
    apply andb_true_iff in Hw as [Ha _]. by apply is_word_not_lbrace in Ha.
  - rewrite sapp_cons in E. injection E as _ E.
    apply word_run_before_open in E; [|by apply is_name_all_word].
    simpl. lia.
Qed.

(** Every token of a name is found. *)
Lemma findall_from_complete (pre post x : string) (k : nat) :
  is_name x = true -> k <= String.length pre ->
  x ∈ findall_from k (pre +:+ placeholder x +:+ post).
Proof.
  intros Hx. revert k. induction pre as [|c pre IH]; intros k Hk.
  - simpl in Hk. replace k with 0 by lia.
    rewrite sapp_nil_l, findall_token by done. apply elem_of_cons. by left.
  - rewrite sapp_cons. destruct k as [|k].
    + rewrite findall_from_0.
      destruct (match_at _) as [[w rest]|] eqn:E; [|apply IH; lia].
      apply elem_of_cons. right. apply IH.
      apply match_at_inv in E as [Hw E].
      by apply match_no_overlap in E.
    + rewrite findall_from_S. apply IH. simpl in Hk. lia.
Qed.

(** [re.findall] captures exactly the names [x] for which [{{x}}] occurs in
    the text, [x] one or more word characters. *)
Lemma findall_spec (s x : string) :
  x ∈ findall s
  <-> is_name x = true /\ exists pre post, s = pre +:+ placeholder x +:+ post.
Proof.
  split.
  - apply findall_from_sound.
  - intros (Hx & pre & post & ->). apply findall_from_complete; [done|lia].
Qed.

Lemma placeholders_spec (s x : string) :
  x ∈ placeholders s
  <-> is_name x = true /\ exists pre post, s = pre +:+ placeholder x +:+ post.
Proof. unfold placeholders. by rewrite elem_of_list_to_set, findall_spec. Qed.

End OccFacts.

(** ** Rendering: the completeness gate and the cache *)

Import TextFacts FindFacts SegFacts OccFacts.

Lemma render_dict_text (fs : filesystem) (self self' : engine)
    (template : string) (var_dict : dict) :
  cached_or_load fs self = (inr template, self') ->
  render_dict fs self var_dict = (render_text template var_dict, self').
Proof. intros H. unfold render_dict. by rewrite H. Qed.

Lemma render_text_ok (template : string) (var_dict : dict) :
  placeholders template ⊆ keys var_dict ->
  render_text template var_dict = inr (substitute var_dict template).
Proof.
  intros H. unfold render_text. case_decide as E; [done|].
  exfalso. apply E. clear E. set_solver.
Qed.

Lemma render_text_missing (template : string) (var_dict : dict) :
  placeholders template ⊈ keys var_dict ->
  render_text template var_dict
  = inl (RenderingError (placeholders template ∖ keys var_dict)).
Proof.
  intros H. unfold render_text. case_decide as E; [|done].
  exfalso. apply H. intros x Hx.
  destruct (decide (x ∈ keys var_dict)) as [|Hk]; [done|].
  assert (x ∈ placeholders template ∖ keys var_dict) as Hm by set_solver.
  rewrite E in Hm. set_solver.
Qed.

(** C1. Once the engine has its template text, [render] succeeds exactly
    when every placeholder name of the template is a key of the mapping; a
    failure is the [RenderingError] carrying the whole difference of the two
    sets, which is then non-empty; keys that the template does not mention
    play no part. The placeholder names are the names [x] of one or more word
    characters for which [{{x}}] occurs in the template. *)
Theorem render_completeness (fs : filesystem) (self self' : engine)
    (template : string) (var_dict : dict) :
  cached_or_load fs self = (inr template, self') ->
  (is_ok (render_dict fs self var_dict).1 = true
   <-> placeholders template ⊆ keys var_dict)
  /\ (forall e, (render_dict fs self var_dict).1 = inl e ->
        e = RenderingError (placeholders template ∖ keys var_dict)
        /\ placeholders template ∖ keys var_dict <> ∅)
  /\ (forall x, x ∈ placeholders template
        <-> is_name x = true
            /\ exists pre post, template = pre +:+ placeholder x +:+ post)
  /\ (forall x, x ∈ placeholders template ∖ keys var_dict
        <-> x ∈ findall template /\ x ∉ var_dict.*1).
Proof.
  intros Hload. rewrite (render_dict_text _ _ _ _ _ Hload). cbn [fst].
  destruct (decide (placeholders template ⊆ keys var_dict)) as [Hsub|Hsub].
  - rewrite render_text_ok by done. split_and!; [done|done| |].
    + apply placeholders_spec.
    + intros x. unfold placeholders, keys. set_solver.
  - rewrite render_text_missing by done. split_and!.
    + split; [done|]. by intros ?.
    + intros e [= <-]. split; [done|]. intros E. apply Hsub. intros x Hx.
      destruct (decide (x ∈ keys var_dict)) as [|Hk]; [done|].
      assert (x ∈ placeholders template ∖ keys var_dict) as Hm by set_solver.
      rewrite E in Hm. set_solver.
    + apply placeholders_spec.
    + intros x. unfold placeholders, keys. set_solver.
Qed.

(** C1 at work: a template naming two placeholders, a mapping with one of
    them and an unused key. *)
Lemma render_completeness_witness :
  let fs := {| files := {[ "pod.yaml" := "id: {{AGENT_ID}} ns: {{NAMESPACE}}" ]};
               locked := ∅ |} in
  let self := init "/opt/templates" (Some "pod.yaml") in
  let self' := {| template_path := "pod.yaml";
                  _template_content :=
                    Some "id: {{AGENT_ID}} ns: {{NAMESPACE}}" |} in
  let var_dict := [("AGENT_ID", "agent-001"); ("IMAGE", "img")] in
  cached_or_load fs self = (inr "id: {{AGENT_ID}} ns: {{NAMESPACE}}", self')
  /\ (forall e, (render_dict fs self var_dict).1 = inl e ->
        e = RenderingError
              (placeholders "id: {{AGENT_ID}} ns: {{NAMESPACE}}" ∖ keys var_dict)
        /\ placeholders "id: {{AGENT_ID}} ns: {{NAMESPACE}}" ∖ keys var_dict
           <> ∅).
Proof.
  intros fs self self' var_dict.
  assert (cached_or_load fs self
          = (inr "id: {{AGENT_ID}} ns: {{NAMESPACE}}", self')) as H
    by (vm_compute; reflexivity).
  split; [exact H|].
  exact (proj1 (proj2 (render_completeness fs self self' _ var_dict H))).
Defined.

(** C10. With a non-empty cached template, [render] leaves the engine as it
    found it, whether it returns text or raises. *)
Theorem render_keeps_cache (fs : filesystem) (self : engine)
    (variables : TemplateVariables) (content : string) :
  _template_content self = Some content ->
  content <> "" ->
  (render fs self variables).2 = self
  /\ _template_content (render fs self variables).2 = Some content.
Proof.
  intros Hc Hne. unfold render, render_dict, cached_or_load. rewrite Hc.
  destruct content as [|c s]; [done|]. by split.
Qed.

Lemma render_keeps_cache_witness :
  let self := {| template_path := "pod.yaml";
                 _template_content := Some "ns: {{NAMESPACE}} {{OTHER}}" |} in
  let fs := {| files := {[ "pod.yaml" := "changed" ]}; locked := ∅ |} in
  _template_content self = Some "ns: {{NAMESPACE}} {{OTHER}}"
  /\ "ns: {{NAMESPACE}} {{OTHER}}" <> ""
  /\ (render fs self (default_variables "a")).2 = self.
Proof.
  intros self fs. split; [reflexivity|]. split; [discriminate|].
  apply (render_keeps_cache fs self (default_variables "a")
           "ns: {{NAMESPACE}} {{OTHER}}"); [reflexivity|discriminate].
Defined.

(** With a non-empty cached template the file system is not consulted. *)
Lemma render_cached_ignores_files (fs fs' : filesystem) (self : engine)
    (variables : TemplateVariables) (c : ascii) (s : string) :
  _template_content self = Some (String c s) ->
  render fs self variables = render fs' self variables.
Proof. intros H. unfold render, render_dict, cached_or_load. by rewrite H. Qed.

(** C4. An engine whose cache holds the empty string reads the file again
    on [render] and replaces the cache with what it finds. *)
Theorem render_reloads_empty_cache :
  let self := {| template_path := "pod.yaml"; _template_content := Some "" |} in
  let fs := {| files := {[ "pod.yaml" := "kind: Pod" ]}; locked := ∅ |} in
  render fs self (default_variables "a")
  = (inr "kind: Pod",
     {| template_path := "pod.yaml"; _template_content := Some "kind: Pod" |})
  /\ _template_content (render fs self (default_variables "a")).2
     <> _template_content self.
Proof. split; [by vm_compute|]. vm_compute. discriminate. Qed.
(** ** Substitution: order of keys and fidelity *)

Lemma dict_lookup_elem (d : dict) (key value : string) :
  NoDup d.*1 -> dict_lookup d key = Some value <-> (key, value) ∈ d.
Proof.
  induction d as [|[k v] d IH]; intros Hnd.
  - simpl. split; [done|]. by intros ?%elem_of_nil.
  - apply NoDup_cons in Hnd as [Hk Hnd]. cbn [dict_lookup].
    rewrite elem_of_cons. destruct (String.eqb_spec k key) as [->|Hne].
    + split; [intros [= ->]; by left|].
      intros [[= ->]|Hin]; [done|].
      destruct Hk. apply list_elem_of_fmap. by exists (key, value).
    + rewrite IH by done. split; [by right|].
      by intros [[= -> ->]|].
Qed.

Lemma dict_lookup_perm (d d' : dict) (key : string) :
  NoDup d.*1 -> d ≡ₚ d' -> dict_lookup d key = dict_lookup d' key.
Proof.
  intros Hnd Hp.
  assert (NoDup d'.*1) as Hnd' by (by rewrite <- Hp).
  destruct (dict_lookup d key) as [v|] eqn:E.
  - symmetry. apply dict_lookup_elem; [done|]. rewrite <- Hp.
    by apply dict_lookup_elem.
  - destruct (dict_lookup d' key) as [v'|] eqn:E'; [|done].
    apply dict_lookup_elem in E'; [|done]. rewrite <- Hp in E'.
    apply dict_lookup_elem in E'; [|done]. congruence.
Qed.

Lemma fill_seg_perm (d d' : dict) (g : segment) :
  NoDup d.*1 -> d ≡ₚ d' -> fill_seg d g = fill_seg d' g.
Proof.
  intros Hnd Hp. destruct g as [text|name]; [done|].
  simpl. by rewrite (dict_lookup_perm d d').
Qed.

(** C2, as the code has it. Each key's replacement scans the whole text
    produced so far, earlier values included. When no value and no run of
    template text outside the tokens holds an opening brace, and no key holds
    a brace, the order in which the keys are processed does not show in the
    output. *)
Theorem substitute_order_irrelevant (segs : list segment) (d d' : dict) :
  Forall (fun g => seg_ok g = true) segs ->
  Forall (fun kv => entry_ok kv = true) d ->
  NoDup d.*1 ->
  d ≡ₚ d' ->
  substitute d (flatten segs) = substitute d' (flatten segs).
Proof.
  intros Hs Hd Hnd Hp.
  assert (Forall (fun kv => entry_ok kv = true) d') as Hd'
    by (by rewrite <- Hp).
  rewrite (substitute_flatten d), (substitute_flatten d') by done.
  f_equal. apply map_ext. intros g. by apply fill_seg_perm.
Qed.

Lemma substitute_order_irrelevant_witness :
  let segs := [Lit "id: "; Tok "AGENT_ID"; Lit " ns: "; Tok "NAMESPACE";
               Lit " }"; Tok "AGENT_ID"] in
  let d := [("AGENT_ID", "a}1"); ("NAMESPACE", "NAMESPACE")] in
  let d' := [("NAMESPACE", "NAMESPACE"); ("AGENT_ID", "a}1")] in
  substitute d (flatten segs) = substitute d' (flatten segs).
Proof.
  intros segs d d'.
  apply (substitute_order_irrelevant segs d d').
  - repeat constructor.
  - repeat constructor.
  - unfold d. cbn [fmap list_fmap fst]. repeat constructor; set_solver.
  - unfold d, d'. apply perm_swap.
Defined.

(** C2, as stated, fails: a value that spells the token of a later key is
    replaced in its turn, so two orders of the same mapping give two texts. *)
Lemma substitute_order_dependent :
  let template := "id: {{AGENT_ID}}" in
  let d := [("AGENT_ID", "{{NAMESPACE}}"); ("NAMESPACE", "default")] in
  let d' := [("NAMESPACE", "default"); ("AGENT_ID", "{{NAMESPACE}}")] in
  placeholders template ⊆ keys d
  /\ d ≡ₚ d'
  /\ substitute d template = "id: default"
  /\ substitute d' template = "id: {{NAMESPACE}}"
  /\ substitute d template <> substitute d' template.
Proof.
  intros template d d'. split_and!.
  - unfold placeholders, keys, template, d. vm_compute findall.
    cbn [fmap list_fmap fst]. set_solver.
  - apply perm_swap.
  - reflexivity.
  - reflexivity.
  - discriminate.
Qed.

Lemma dict_lookup_key (d : dict) (key : string) :
  key ∈ d.*1 ->
  exists value, dict_lookup d key = Some value /\ (key, value) ∈ d.
Proof.
  induction d as [|[k v] d IH]; [by intros ?%elem_of_nil|].
  cbn [fmap list_fmap fst dict_lookup]. intros Hin.
  destruct (String.eqb_spec k key) as [->|Hne].
  - exists v. split; [done|]. by left.
  - apply elem_of_cons in Hin as [->|Hin]; [done|].
    destruct (IH Hin) as (value & E & Hv). exists value. split; [done|].
    by right.
Qed.

Lemma seg_wf_ok (segs : list segment) :
  Forall (fun g => seg_wf g = true) segs ->
  Forall (fun g => seg_ok g = true) segs.
Proof.
  intros H. eapply Forall_impl; [exact H|].
  intros [text|name]; [done|]. apply is_name_no_brace.
Qed.

Lemma to_dict_entry_ok (variables : TemplateVariables) :
  Forall (fun kv => no_open kv.2 = true) (to_dict variables) ->
  Forall (fun kv => entry_ok kv = true) (to_dict variables).
Proof.
  intros Hv.
  assert (Forall (fun kv => no_brace kv.1 = true) (to_dict variables)) as Hk
    by (repeat constructor).
  pose proof (conj Hk Hv) as H. apply Forall_and in H.
  eapply Forall_impl; [exact H|]. intros kv [H1 H2]. unfold entry_ok.
  by rewrite H1, H2.
Qed.

(** Once every token has a value without opening brace, only literal runs
    without opening brace are left. *)
Lemma fill_all_literal (d : dict) (segs : list segment) :
  Forall (fun g => seg_wf g = true) segs ->
  (forall n, n ∈ tok_names segs -> n ∈ d.*1) ->
  Forall (fun kv => no_open kv.2 = true) d ->
  Forall (fun g => seg_wf g = true) (map (fill_seg d) segs)
  /\ tok_names (map (fill_seg d) segs) = [].
Proof.
  intros Hs Hn Hd.
  induction Hs as [|[text|name] segs Hg _ IH]; [done| |].
  - destruct IH as [IH1 IH2]; [done|]. split; [by constructor|done].
  - destruct IH as [IH1 IH2].
    { intros n Hin. apply Hn. cbn [tok_names]. by right. }
    destruct (dict_lookup_key d name) as (value & E & Hin).
    { apply Hn. cbn [tok_names]. by left. }
    cbn [map fill_seg]. rewrite E. split; [|done].
    constructor; [|done]. rewrite Forall_forall in Hd. by apply (Hd _ Hin).
Qed.

(** C6, as the code has it. For a template whose text outside the tokens
    holds no opening brace and whose tokens all name fields of the variable
    set, and values that hold no opening brace, [render] returns the template
    with every token replaced by the value of its name and every other
    character kept; no token is left in the result. *)
Theorem render_fidelity (fs : filesystem) (self self' : engine)
    (segs : list segment) (variables : TemplateVariables) :
  cached_or_load fs self = (inr (flatten segs), self') ->
  Forall (fun g => seg_wf g = true) segs ->
  (forall n, n ∈ tok_names segs -> n ∈ (to_dict variables).*1) ->
  Forall (fun kv => no_open kv.2 = true) (to_dict variables) ->
  (render fs self variables).1
  = inr (flatten (map (fill_seg (to_dict variables)) segs))
  /\ (forall n, n ∈ tok_names segs ->
        exists value, (n, value) ∈ to_dict variables
          /\ fill_seg (to_dict variables) (Tok n) = Lit value)
  /\ (forall text, fill_seg (to_dict variables) (Lit text) = Lit text)
  /\ findall (flatten (map (fill_seg (to_dict variables)) segs)) = [].
Proof.
  intros Hload Hs Hn Hv. unfold render.
  rewrite (render_dict_text _ _ _ _ _ Hload). cbn [fst]. split_and!.
  - rewrite render_text_ok.
    + f_equal. apply substitute_flatten;
        [by apply to_dict_entry_ok|by apply seg_wf_ok].
    + unfold placeholders, keys. rewrite findall_flatten by done.
      intros n Hin. apply elem_of_list_to_set in Hin.
      apply elem_of_list_to_set. by apply Hn.
  - intros n Hin. destruct (dict_lookup_key _ _ (Hn n Hin)) as (value & E & Hv').
    exists value. split; [done|]. cbn [fill_seg]. by rewrite E.
  - done.
  - destruct (fill_all_literal (to_dict variables) segs) as [H1 H2]; [done..|].
    by rewrite findall_flatten.
Qed.

Lemma render_fidelity_witness :
  let segs := [Lit "id: "; Tok "AGENT_ID"; Lit " }ns: "; Tok "NAMESPACE";
               Lit " image: "; Tok "IMAGE"; Lit " cpu: "; Tok "CPU_LIMIT";
               Lit " mem: "; Tok "MEMORY_LIMIT"; Lit " env:"; Tok "ENV_VARS";
               Lit " mounts:"; Tok "VOLUME_MOUNTS"; Lit " volumes:";
               Tok "VOLUMES"] in
  let self := {| template_path := "pod.yaml";
                 _template_content := Some (flatten segs) |} in
  let fs := {| files := ∅; locked := ∅ |} in
  (render fs self (default_variables "agent-001")).1
  = inr ("id: agent-001 }ns: default image: godel/agent:latest cpu: 500m"
         +:+ " mem: 512Mi env: mounts: volumes:").
Proof.
  intros segs self fs.
  refine (proj1 (render_fidelity fs self self segs
                   (default_variables "agent-001") _ _ _ _)).
  - reflexivity.
  - repeat constructor.
  - intros n Hn. vm_compute in Hn. vm_compute. set_solver.
  - repeat constructor.
Defined.

(** C6, as stated, fails: with each recognized token once in the template,
    a value spelling the token of a later field is replaced in its turn, and
    a value spelling the token of an earlier field stays in the result. *)
Lemma render_fidelity_fails :
  let template :=
    "id: {{AGENT_ID}} ns: {{NAMESPACE}} image: {{IMAGE}} cpu: {{CPU_LIMIT}}"
    +:+ " mem: {{MEMORY_LIMIT}} env:{{ENV_VARS}} mounts:{{VOLUME_MOUNTS}}"
    +:+ " volumes:{{VOLUMES}}" in
  let variables :=
    {| AGENT_ID := "{{NAMESPACE}}"; NAMESPACE := "{{AGENT_ID}}";
       IMAGE := "img"; CPU_LIMIT := "1"; MEMORY_LIMIT := "1Gi";
       ENV_VARS := " []"; VOLUME_MOUNTS := " []"; VOLUMES := " []" |} in
  let rendered :=
    "id: {{AGENT_ID}} ns: {{AGENT_ID}} image: img cpu: 1 mem: 1Gi"
    +:+ " env: [] mounts: [] volumes: []" in
  render_text template (to_dict variables) = inr rendered
  /\ findall rendered = ["AGENT_ID"; "AGENT_ID"]
  /\ rendered
     <> "id: {{NAMESPACE}} ns: {{AGENT_ID}} image: img cpu: 1 mem: 1Gi"
        +:+ " env: [] mounts: [] volumes: []".
Proof.
  intros template variables rendered. split_and!.
  - unfold render_text. case_decide as E; [reflexivity|].
    exfalso. apply E. clear E. unfold placeholders, keys, template.
    vm_compute findall. cbn [fmap list_fmap fst to_dict]. set_solver.
  - reflexivity.
  - discriminate.
Qed.

(** ** Validation *)

Section ValidationFacts.

Variable safe_load : string -> string + yaml_value.

(** The gates after the parse, in the order they are tried. *)
Lemma validate_yaml_not_mapping (text : string) (v : yaml_value) :
  safe_load text = inr v ->
  (forall parsed, v <> YMap parsed) ->
  validate_yaml safe_load text = inl (ValidationError InvalidStructure).
Proof.
  intros H Hv. unfold validate_yaml. rewrite H.
  destruct v; try done. by destruct (Hv entries).
Qed.

Lemma validate_yaml_missing_field (text : string)
    (parsed : list (yaml_value * yaml_value)) (e : exn) :
  safe_load text = inr (YMap parsed) ->
  check_required parsed required_fields = inl e ->
  validate_yaml safe_load text = inl e.
Proof. intros H Hr. unfold validate_yaml. by rewrite H, Hr. Qed.

Lemma check_required_first_missing
    (parsed : list (yaml_value * yaml_value)) (before after : list string)
    (field : string) :
  Forall (fun f => contains parsed f = true) before ->
  contains parsed field = false ->
  check_required parsed (before ++ field :: after)
  = inl (ValidationError (MissingField field)).
Proof.
  intros Hb Hf. induction Hb as [|f before Hc _ IH]; simpl.
  - by rewrite Hf.
  - by rewrite Hc.
Qed.

Lemma check_required_all (parsed : list (yaml_value * yaml_value))
    (fields : list string) :
  Forall (fun f => contains parsed f = true) fields ->
  check_required parsed fields = inr ().
Proof. induction 1 as [|f fields Hc _ IH]; simpl; [done|]. by rewrite Hc. Qed.


(** The runtime-class gate on a [spec] that is a mapping. *)
Lemma validate_yaml_runtime_class (text : string)
    (parsed spec : list (yaml_value * yaml_value)) :
  safe_load text = inr (YMap parsed) ->
  check_required parsed required_fields = inr () ->
  str_eq (get_or_none parsed "kind") "Pod" = true ->
  map_get parsed "spec" = Some (YMap spec) ->
  str_eq (get_or_none spec "runtimeClassName") "kata" = false ->
  validate_yaml safe_load text = inl (ValidationError InvalidRuntimeClass).
Proof.
  intros H Hr Hk Hs Hrt. unfold validate_yaml.
  rewrite H, Hr, Hs. cbn [bind negb]. rewrite Hk.
  cbn [negb from_option id spec_get bind ret raise]. by rewrite Hrt.
Qed.

(** The same gate on a [spec] that is no mapping: the lookup itself raises. *)
Lemma validate_yaml_spec_not_mapping (text : string)
    (parsed : list (yaml_value * yaml_value)) (spec : yaml_value) :
  safe_load text = inr (YMap parsed) ->
  check_required parsed required_fields = inr () ->
  str_eq (get_or_none parsed "kind") "Pod" = true ->
  map_get parsed "spec" = Some spec ->
  (forall entries, spec <> YMap entries) ->
  validate_yaml safe_load text = inl AttributeError.
Proof.
  intros H Hr Hk Hs Hm. unfold validate_yaml.
  rewrite H, Hr, Hs. cbn [bind negb]. rewrite Hk.
  cbn [negb from_option id]. destruct spec; try done. by destruct (Hm entries).
Qed.

End ValidationFacts.

(** C7. Text the parser rejects fails validation with the syntax error that
    carries the parser's diagnostic, whatever the text holds; the parse is
    the first gate and nothing after it is consulted. *)
Theorem validate_yaml_syntax_first (safe_load : string -> string + yaml_value)
    (text diag : string) :
  safe_load text = inl diag ->
  validate_yaml safe_load text = inl (ValidationError (InvalidSyntax diag)).
Proof. intros H. unfold validate_yaml. by rewrite H. Qed.

Lemma validate_yaml_syntax_first_witness :
  let safe_load := fun text : string =>
    if String.eqb text "kind: Pod: x"
    then inl "mapping values are not allowed here"
    else inr YNull in
  validate_yaml safe_load "kind: Pod: x"
  = inl (ValidationError (InvalidSyntax "mapping values are not allowed here")).
Proof.
  intros safe_load.
  apply (validate_yaml_syntax_first safe_load "kind: Pod: x"). reflexivity.
Defined.

(** C9. A parsed top-level mapping with the four required keys, kind "Pod"
    and a [spec] mapping whose runtimeClassName is "kata" passes validation,
    which returns that mapping as parsed. *)
Theorem validate_yaml_accepts (safe_load : string -> string + yaml_value)
    (text : string) (parsed spec : list (yaml_value * yaml_value)) :
  safe_load text = inr (YMap parsed) ->
  contains parsed "apiVersion" = true ->
  contains parsed "metadata" = true ->
  map_get parsed "kind" = Some (YStr "Pod") ->
  map_get parsed "spec" = Some (YMap spec) ->
  map_get spec "runtimeClassName" = Some (YStr "kata") ->
  validate_yaml safe_load text = inr (YMap parsed).
Proof.
  intros H Ha Hm Hk Hs Hrt. unfold validate_yaml. rewrite H.
  rewrite check_required_all.
  2:{ unfold required_fields.
      repeat constructor; try done; unfold contains; by rewrite ?Hk, ?Hs. }
  unfold get_or_none. rewrite Hk, Hs.
  cbn [bind ret raise from_option id negb str_eq String.eqb Ascii.eqb
       Bool.eqb spec_get andb].
  unfold get_or_none. by rewrite Hrt.
Qed.

Lemma validate_yaml_accepts_witness :
  let spec := [(YStr "runtimeClassName", YStr "kata");
               (YStr "containers", YSeq [])] in
  let parsed := [(YStr "apiVersion", YStr "v1"); (YStr "kind", YStr "Pod");
                 (YStr "metadata", YMap [(YStr "name", YStr "agent-001")]);
                 (YInt 7, YNull); (YStr "extra", YBool true);
                 (YStr "spec", YMap spec)] in
  let safe_load := fun _ : string => inr (YMap parsed) in
  validate_yaml safe_load "apiVersion: v1" = inr (YMap parsed).
Proof.
  intros spec parsed safe_load.
  apply (validate_yaml_accepts safe_load "apiVersion: v1" parsed spec);
    reflexivity.
Defined.

(** C3. A Pod manifest with all four fields whose [spec] is not a mapping
    (here: empty, parsed as null) leaves [validate_yaml] with an
    [AttributeError], not with the validation error of the runtime class. *)
Theorem validate_yaml_spec_null :
  let parsed := [(YStr "apiVersion", YStr "v1"); (YStr "kind", YStr "Pod");
                 (YStr "metadata", YMap []); (YStr "spec", YNull)] in
  let safe_load := fun _ : string => inr (YMap parsed) in
  validate_yaml safe_load "apiVersion: v1" = inl AttributeError
  /\ validate_yaml safe_load "apiVersion: v1"
     <> inl (ValidationError InvalidRuntimeClass).
Proof. split; [reflexivity|discriminate]. Qed.

(** ** Saving *)

(** C5. [save_rendered] raises what [render] raises, else what
    [validate_yaml] raises, and in both cases leaves the file system as it
    was; otherwise it writes the rendered text at the output path, replacing
    what was there, and returns the path (or raises the write's own error,
    nothing written). *)
Theorem save_rendered_gated (safe_load : string -> string + yaml_value)
    (fs : filesystem) (self : engine) (variables : TemplateVariables)
    (output_path : string) :
  let '(outcome, _, fs') :=
    save_rendered safe_load fs self variables output_path in
  match (render fs self variables).1 with
  | inl e => outcome = inl e /\ fs' = fs
  | inr text =>
      match validate_yaml safe_load text with
      | inl e => outcome = inl e /\ fs' = fs
      | inr _ =>
          if decide (output_path ∈ locked fs)
          then outcome = inl (OSError output_path) /\ fs' = fs
          else outcome = inr output_path
               /\ files fs' = <[output_path := text]> (files fs)
               /\ locked fs' = locked fs
      end
  end.
Proof.
  unfold save_rendered. destruct (render fs self variables) as [[e|text] self'].
  - done.
  - cbn [fst]. destruct (validate_yaml safe_load text) as [e|parsed]; [done|].
    unfold write_text. by case_decide.
Qed.

(** A missing placeholder surfaces from [save_rendered] as the rendering
    error, with nothing written. *)
Lemma save_rendered_missing (safe_load : string -> string + yaml_value) :
  let self := {| template_path := "pod.yaml";
                 _template_content := Some "id: {{AGENT_ID}} {{OWNER}}" |} in
  let fs := {| files := ∅; locked := ∅ |} in
  save_rendered safe_load fs self (default_variables "a") "out.yaml"
  = (inl (RenderingError {[ "OWNER" ]}), self, fs).
Proof.
  intros self fs. unfold save_rendered, render.
  rewrite (render_dict_text fs self self "id: {{AGENT_ID}} {{OWNER}}" _ eq_refl).
  assert (placeholders "id: {{AGENT_ID}} {{OWNER}}"
            ∖ keys (to_dict (default_variables "a")) = {[ "OWNER" ]}) as E
    by (vm_compute; reflexivity).
  rewrite render_text_missing, E; [done|].
  intros Hsub. assert ("OWNER" ∈ keys (to_dict (default_variables "a"))) as Hin.
  { apply Hsub, placeholders_spec. split; [done|].
    by exists "id: {{AGENT_ID}} ", "". }
  vm_compute in Hin. discriminate.
Qed.

(** ** Formatting helpers *)

Module JoinFacts.
Import TextFacts.

Lemma join_cons (sep x y : string) (l : list string) :
  join sep (x :: y :: l) = x +:+ sep +:+ join sep (y :: l).
Proof. reflexivity. Qed.

Lemma join_app (sep : string) (l1 l2 : list string) :
  l1 <> [] -> l2 <> [] ->
  join sep (l1 ++ l2)%list = join sep l1 +:+ sep +:+ join sep l2.
Proof.
  intros H1 H2. induction l1 as [|x [|y l1] IH]; [done| |].
  - destruct l2 as [|z l2]; [done|]. by rewrite <- app_comm_cons.
  - rewrite <- app_comm_cons, <- app_comm_cons, !join_cons.
    rewrite app_comm_cons, IH by done. by rewrite !sapp_assoc.
Qed.

(** Joining the lines of several non-empty blocks is joining the joined
    blocks. *)
Lemma join_concat (sep : string) (blocks : list (list string)) :
  Forall (fun b => b <> []) blocks ->
  join sep (concat blocks) = join sep (map (join sep) blocks).
Proof.
  induction 1 as [|b [|b' blocks] Hb Hbs IH]; [done| |].
  - simpl. by rewrite app_nil_r.
  - change (concat (b :: b' :: blocks)) with (b ++ concat (b' :: blocks))%list.
    rewrite join_app; [|done|].
    + by rewrite IH.
    + apply Forall_cons in Hbs as [Hb' _]. cbn [concat].
      by destruct b'.
Qed.

(** A loop that appends a block per entry collects the blocks in order. *)
Lemma fold_left_append {A : Type} (f : A -> list string) (l : list A)
    (init : list string) :
  fold_left (fun lines x => (lines ++ f x)%list) l init
  = (init ++ concat (map f l))%list.
Proof.
  revert init. induction l as [|x l IH]; intros init; simpl.
  - by rewrite app_nil_r.
  - by rewrite IH, <- app_assoc.
Qed.

Lemma fold_left_ext {A B : Type} (f g : B -> A -> B) (l : list A) (b : B) :
  (forall acc x, f acc x = g acc x) -> fold_left f l b = fold_left g l b.
Proof.
  intros H. revert b. induction l as [|x l IH]; intros b; [done|].
  simpl. by rewrite H, IH.
Qed.

End JoinFacts.

Import JoinFacts.

Lemma prop_lines_fold (lines : list string) (kv : string * prop_value) :
  match kv.2 with
  | PDict items =>
      fold_left
        (fun lines sub =>
           (lines ++ ["      " +:+ sub.1 +:+ ": " +:+ sub.2])%list)
        items (lines ++ ["    " +:+ kv.1 +:+ ":"])%list
  | PScalar repr => (lines ++ ["    " +:+ kv.1 +:+ ": " +:+ repr])%list
  end = (lines ++ prop_lines kv)%list.
Proof.
  unfold prop_lines. destruct kv.2 as [items|repr]; [|done].
  rewrite (fold_left_append
             (fun sub => ["      " +:+ sub.1 +:+ ": " +:+ sub.2])).
  rewrite <- app_assoc. f_equal. cbn [app]. f_equal.
  induction items as [|sub items IH]; [done|]. cbn [map concat app].
  by rewrite IH.
Qed.

Lemma format_lines (A : Type) (block : A -> list string) (e : A) (es : list A) :
  join newline (concat (map (fun x => "" :: block x) (e :: es)))
  = join newline (map (fun x => entry_text (block x)) (e :: es)).
Proof.
  rewrite join_concat.
  - by rewrite map_map.
  - apply Forall_map, Forall_forall. by intros x _.
Qed.

(** C8. Each helper returns [" []"] for an empty mapping; for a non-empty
    one its text is, entry by entry in iteration order, a blank line followed
    by the entry's list-item block, the entries separated by a newline. *)
Theorem format_helpers_shape :
  format_env_vars [] = " []"
  /\ format_volume_mounts [] = " []"
  /\ format_volumes [] = " []"
  /\ (forall e es,
        format_env_vars (e :: es)
        = join newline (map (fun kv => entry_text (env_block kv)) (e :: es)))
  /\ (forall e es,
        format_volume_mounts (e :: es)
        = join newline (map (fun kv => entry_text (mount_block kv)) (e :: es)))
  /\ (forall e es,
        format_volumes (e :: es)
        = join newline
            (map (fun vol => entry_text (volume_block vol)) (e :: es))).
Proof.
  split_and!; try reflexivity.
  - intros e es. unfold format_env_vars.
    rewrite (fold_left_append (fun kv => "" :: env_block kv)).
    apply format_lines.
  - intros e es. unfold format_volume_mounts.
    rewrite (fold_left_append (fun kv => "" :: mount_block kv)).
    apply format_lines.
  - intros e es. unfold format_volumes.
    rewrite <- (format_lines _ volume_block).
    rewrite <- (app_nil_l (concat _)).
    rewrite <- (fold_left_append (fun vol => "" :: volume_block vol)).
    f_equal. apply fold_left_ext. intros lines vol.
    rewrite (fold_left_ext _ (fun lines kv => (lines ++ prop_lines kv)%list))
      by (intros; apply prop_lines_fold).
    rewrite fold_left_append. unfold volume_block.
    by rewrite <- !app_assoc.
Qed.

Example format_env_vars_two :
  format_env_vars [("A", "1"); ("B", "2")]
  = newline +:+ "    - name: A" +:+ newline
    +:+ "      value: " +:+ dquote +:+ "1" +:+ dquote +:+ newline
    +:+ newline +:+ "    - name: B" +:+ newline
    +:+ "      value: " +:+ dquote +:+ "2" +:+ dquote.
Proof. reflexivity. Qed.

Example format_volumes_two :
  format_volumes
    [("agent-config", [("configMap", PDict [("name", "godel-agent-config")])]);
     ("agent-data", [("emptyDir", PDict [])])]
  = newline +:+ "  - name: agent-config" +:+ newline
    +:+ "    configMap:" +:+ newline
    +:+ "      name: godel-agent-config" +:+ newline
    +:+ newline +:+ "  - name: agent-data" +:+ newline
    +:+ "    emptyDir:".
Proof. reflexivity. Qed.

(** ** The spec's example scenarios *)

Example findall_scan :
  findall "a {{X}} b {{{Y_1}} {{}} {{Z z}} {{X}}" = ["X"; "Y_1"; "X"].
Proof. reflexivity. Qed.

Example replace_every_occurrence :
  replace "{{X}}" "v" "{{X}}-{{{X}}}-{{X}" = "v-{v}-{{X}".
Proof. reflexivity. Qed.

Example replace_empty_old : replace "" "-" "abc" = "-a-b-c-".
Proof. reflexivity. Qed.

Example scenario_kind : render_text "kind: {{K}}" [("K", "Pod")] = inr "kind: Pod".
Proof. by vm_compute. Qed.

Example scenario_wrong_kind :
  validate_yaml
    (fun _ => inr (YMap [(YStr "apiVersion", YStr "v1");
                         (YStr "kind", YStr "Service");
                         (YStr "metadata", YMap []); (YStr "spec", YMap [])]))
    "apiVersion: v1"
  = inl (ValidationError (WrongKind (YStr "Service"))).
Proof. reflexivity. Qed.

Example scenario_runc :
  validate_yaml
    (fun _ => inr (YMap [(YStr "apiVersion", YStr "v1");
                         (YStr "kind", YStr "Pod");
                         (YStr "metadata", YMap []);
                         (YStr "spec",
                          YMap [(YStr "runtimeClassName", YStr "runc")])]))
    "apiVersion: v1"
  = inl (ValidationError InvalidRuntimeClass).
Proof. reflexivity. Qed.

(** * Further properties of the engine *)

(** ** Loading and caching *)

(** X1. With nothing usable in the cache and no file at the template path,
    [render] raises [FileNotFoundError] for that path, whatever the
    variables, and the engine is left as it was. *)
Theorem render_missing_template (fs : filesystem) (self : engine)
    (variables : TemplateVariables) :
  (_template_content self = None \/ _template_content self = Some "") ->
  files fs !! template_path self = None ->
  render fs self variables
  = (inl (FileNotFoundError (template_path self)), self).
Proof.
  intros Hc Hf. unfold render, render_dict, cached_or_load, _load_template.
  destruct Hc as [-> | ->]; by rewrite Hf.
Qed.

Lemma render_missing_template_witness :
  let fs := {| files := {[ "other.yaml" := "kind: Pod" ]}; locked := ∅ |} in
  render fs (init "/opt/godel" None) (default_variables "a")
  = (inl (FileNotFoundError "/opt/godel/kata-pod.yaml"),
     init "/opt/godel" None).
Proof.
  intros fs.
  apply (render_missing_template fs (init "/opt/godel" None)
           (default_variables "a")).
  - by left.
  - by vm_compute.
Defined.

(** X2. The first [render] of an engine without usable cache stores the
    file's non-empty content; every later [render] works on that stored text
    and leaves the engine alone, whatever has become of the file. *)
Theorem render_loads_once (fs fs' : filesystem) (self : engine)
    (v v' : TemplateVariables) (content : string) :
  (_template_content self = None \/ _template_content self = Some "") ->
  files fs !! template_path self = Some content ->
  content <> "" ->
  let loaded := {| template_path := template_path self;
                   _template_content := Some content |} in
  render fs self v = (render_text content (to_dict v), loaded)
  /\ render fs' loaded v' = (render_text content (to_dict v'), loaded).
Proof.
  intros Hc Hf Hne loaded. split.
  - unfold render, render_dict, cached_or_load, _load_template.
    destruct Hc as [-> | ->]; by rewrite Hf.
  - unfold render, render_dict, cached_or_load. cbn [_template_content loaded].
    by destruct content.
Qed.

Lemma render_loads_once_witness :
  let fs := {| files := {[ "pod.yaml" := "id: {{AGENT_ID}}" ]}; locked := ∅ |} in
  let fs' := {| files := ∅; locked := ∅ |} in
  let loaded := {| template_path := "pod.yaml";
                   _template_content := Some "id: {{AGENT_ID}}" |} in
  render fs (init "/opt/godel" (Some "pod.yaml")) (default_variables "a")
  = (render_text "id: {{AGENT_ID}}" (to_dict (default_variables "a")), loaded)
  /\ render fs' loaded (default_variables "b")
     = (render_text "id: {{AGENT_ID}}" (to_dict (default_variables "b")),
        loaded).
Proof.
  intros fs fs' loaded.
  apply (render_loads_once fs fs' (init "/opt/godel" (Some "pod.yaml"))
           (default_variables "a") (default_variables "b")
           "id: {{AGENT_ID}}").
  - by left.
  - by vm_compute.
  - discriminate.
Defined.

(** ** The variable set *)

Lemma to_dict_names (variables : TemplateVariables) :
  (to_dict variables).*1 = recognized_names.
Proof. reflexivity. Qed.

(** X3. [to_dict] always has the same eight distinct keys, each a name the
    placeholder pattern can capture, and it keeps every field: variable sets
    with equal mappings are equal. *)
Theorem to_dict_faithful (v v' : TemplateVariables) :
  (to_dict v).*1 = recognized_names
  /\ NoDup (to_dict v).*1
  /\ Forall (fun name => is_name name = true) (to_dict v).*1
  /\ (to_dict v = to_dict v' -> v = v').
Proof.
  split_and!.
  - reflexivity.
  - rewrite to_dict_names. unfold recognized_names.
    repeat (apply NoDup_cons; split; [by vm_compute; set_solver|]).
    apply NoDup_nil_2.
  - rewrite to_dict_names. by repeat constructor.
  - destruct v, v'. unfold to_dict. cbn. by intros [= -> -> -> -> -> -> -> ->].
Qed.

Lemma to_dict_faithful_witness :
  default_variables "a"
  = {| AGENT_ID := "a"; NAMESPACE := "default"; IMAGE := "godel/agent:latest";
       CPU_LIMIT := "500m"; MEMORY_LIMIT := "512Mi"; ENV_VARS := "";
       VOLUME_MOUNTS := ""; VOLUMES := "" |}.
Proof.
  apply (to_dict_faithful (default_variables "a")). reflexivity.
Defined.

(** X4. Whether [render] succeeds, and what it raises, does not depend on
    the values of the variable set: two variable sets give the same engine
    afterwards and the same exception, if any. *)
Theorem render_outcome_ignores_values (fs : filesystem) (self : engine)
    (v v' : TemplateVariables) :
  (render fs self v).2 = (render fs self v').2
  /\ is_ok (render fs self v).1 = is_ok (render fs self v').1
  /\ (forall e, (render fs self v).1 = inl e -> (render fs self v').1 = inl e).
Proof.
  unfold render, render_dict.
  destruct (cached_or_load fs self) as [[e|template] self']; [done|].
  cbn [fst snd bind]. unfold render_text.
  change (keys (to_dict v)) with (keys (to_dict v')).
  by case_decide.
Qed.

Lemma render_outcome_ignores_values_witness :
  let self := {| template_path := "pod.yaml";
                 _template_content := Some "id: {{AGENT_ID}} {{OWNER}}" |} in
  let fs := {| files := ∅; locked := ∅ |} in
  let v' := {| AGENT_ID := "b"; NAMESPACE := "n"; IMAGE := "i";
               CPU_LIMIT := "1"; MEMORY_LIMIT := "2"; ENV_VARS := "OWNER";
               VOLUME_MOUNTS := "{{OWNER}}"; VOLUMES := "" |} in
  (render fs self v').1 = inl (RenderingError {[ "OWNER" ]}).
Proof.
  intros self fs v'.
  apply (render_outcome_ignores_values fs self (default_variables "a") v').
  by vm_compute.
Defined.

(** X5. A token [{{x}}] in the template whose name is none of the eight
    fields makes [render] raise the rendering error, with [x] among the
    names it carries, whatever the variables. *)
Theorem render_unrecognized_token (fs : filesystem) (self self' : engine)
    (variables : TemplateVariables) (pre x post : string) :
  cached_or_load fs self = (inr (pre +:+ placeholder x +:+ post), self') ->
  is_name x = true ->
  x ∉ recognized_names ->
  exists missing,
    (render fs self variables).1 = inl (RenderingError missing)
    /\ x ∈ missing.
Proof.
  intros Hload Hx Hnot. unfold render.
  rewrite (render_dict_text _ _ _ _ _ Hload). cbn [fst].
  assert (x ∈ placeholders (pre +:+ placeholder x +:+ post)) as Hin.
  { apply placeholders_spec. split; [done|]. by exists pre, post. }
  assert (x ∉ keys (to_dict variables)) as Hk.
  { unfold keys. rewrite to_dict_names. by rewrite elem_of_list_to_set. }
  eexists. split.
  - apply render_text_missing. intros Hsub. by apply Hk, Hsub.
  - set_solver.
Qed.

Lemma render_unrecognized_token_witness :
  let self := {| template_path := "pod.yaml";
                 _template_content :=
                   Some "id: {{AGENT_ID}} owner: {{OWNER}} end" |} in
  let fs := {| files := ∅; locked := ∅ |} in
  exists missing,
    (render fs self (default_variables "a")).1 = inl (RenderingError missing)
    /\ "OWNER" ∈ missing.
Proof.
  intros self fs.
  apply (render_unrecognized_token fs self self (default_variables "a")
           "id: {{AGENT_ID}} owner: " "OWNER" " end").
  - reflexivity.
  - reflexivity.
  - unfold recognized_names. intros H.
    repeat (apply elem_of_cons in H as [H|H]; [discriminate|]).
    by apply elem_of_nil in H.
Defined.

(** ** Substitution on arbitrary text *)

Lemma sapp_nil_r (s : string) : s +:+ "" = s.
Proof. induction s as [|c s IH]; [done|]. by rewrite sapp_cons, IH. Qed.

(** [occursb] decides whether the text can be split around [old]. *)
Lemma occursb_spec (old s : string) :
  occursb old s = true <-> exists pre post, s = pre +:+ old +:+ post.
Proof.
  induction s as [|c s IH].
  - cbn [occursb]. rewrite orb_false_r. split.
    + intros [t ->]%prefix_inv. by exists "", t.
    + intros (pre & post & E). destruct pre; [|done].
      rewrite sapp_nil_l in E. rewrite E. apply prefix_app.
  - cbn [occursb]. rewrite orb_true_iff, IH. split.
    + intros [[t ->]%prefix_inv | (pre & post & ->)].
      * by exists "", t.
      * by exists (String c pre), post.
    + intros (pre & post & E). destruct pre as [|c' pre].
      * left. rewrite sapp_nil_l in E. rewrite E. apply prefix_app.
      * right. rewrite sapp_cons in E. injection E as _ ->. by exists pre, post.
Qed.

(** [str.replace] leaves a text without occurrence of [old] as it is. *)
Lemma replace_from_absent (old new s : string) :
  occursb old s = false -> replace_from 0 old new s = s.
Proof.
  induction s as [|c s IH]; [done|]. cbn [occursb].
  intros [Hp Hs]%orb_false_iff. rewrite replace_from_miss by done.
  f_equal. by apply IH.
Qed.

(** X6. Keys whose token does not occur in the text change nothing: the
    substitution loop returns the text as it was. *)
Theorem substitute_absent_keys (d : dict) (text : string) :
  forallb (fun kv => negb (occursb (placeholder kv.1) text)) d = true ->
  substitute d text = text.
Proof.
  unfold substitute. induction d as [|[key value] d IH]; [done|].
  cbn [forallb fold_left fst snd].
  intros [Hk Hd]%andb_true_iff. apply negb_true_iff in Hk.
  rewrite replace_placeholder, replace_from_absent by done. by apply IH.
Qed.

Lemma substitute_absent_keys_witness :
  substitute [("IMAGE", "img"); ("{odd", "x")] "id: {{AGENT_ID}} }}{{"
  = "id: {{AGENT_ID}} }}{{".
Proof.
  apply (substitute_absent_keys [("IMAGE", "img"); ("{odd", "x")]
           "id: {{AGENT_ID}} }}{{").
  reflexivity.
Defined.

(** X7. A template without opening brace renders to itself, for any
    mapping: nothing is reported missing and nothing is replaced. *)
Theorem render_plain_text (fs : filesystem) (self self' : engine)
    (template : string) (var_dict : dict) :
  cached_or_load fs self = (inr template, self') ->
  no_open template = true ->
  render_dict fs self var_dict = (inr template, self').
Proof.
  intros Hload Hno. rewrite (render_dict_text _ _ _ _ _ Hload). f_equal.
  rewrite render_text_ok.
  - f_equal. unfold substitute.
    induction var_dict as [|[key value] d IH]; [done|].
    cbn [fold_left fst snd]. rewrite replace_placeholder.
    rewrite <- (sapp_nil_r template) at 1.
    rewrite replace_literal by done. cbn [replace_from].
    by rewrite sapp_nil_r.
  - unfold placeholders, findall. rewrite <- (sapp_nil_r template).
    rewrite findall_literal by done. cbn [findall_from]. set_solver.
Qed.

Lemma render_plain_text_witness :
  let self := {| template_path := "pod.yaml";
                 _template_content := Some "kind: Pod }} done" |} in
  let fs := {| files := ∅; locked := ∅ |} in
  render_dict fs self [("kind", "x"); ("", "y")]
  = (inr "kind: Pod }} done", self).
Proof.
  intros self fs.
  apply (render_plain_text fs self self "kind: Pod }} done"
           [("kind", "x"); ("", "y")]); reflexivity.
Defined.

(** ** Substitution on segmented templates *)

Lemma dict_lookup_in (d : dict) (key value : string) :
  dict_lookup d key = Some value -> (key, value) ∈ d.
Proof.
  induction d as [|[k v] d IH]; [done|]. cbn [dict_lookup].
  destruct (String.eqb_spec k key) as [->|Hne].
  - intros [= ->]. by left.
  - intros H. right. by apply IH.
Qed.

Lemma fill_seg_ok (d : dict) (segs : list segment) :
  Forall (fun kv => entry_ok kv = true) d ->
  Forall (fun g => seg_ok g = true) segs ->
  Forall (fun g => seg_ok g = true) (map (fill_seg d) segs).
Proof.
  intros Hd Hs. apply Forall_map. eapply Forall_impl; [exact Hs|].
  intros [text|name] Hg; [done|]. cbn [fill_seg].
  destruct (dict_lookup d name) as [value|] eqn:E; [|done].
  apply dict_lookup_in in E. rewrite Forall_forall in Hd.
  apply Hd in E. by apply andb_true_iff in E as [_ E].
Qed.

Lemma fill_seg_twice (d : dict) (g : segment) :
  fill_seg d (fill_seg d g) = fill_seg d g.
Proof.
  destruct g as [text|name]; [done|]. cbn [fill_seg].
  destruct (dict_lookup d name) as [value|] eqn:E; [done|].
  cbn [fill_seg]. by rewrite E.
Qed.

(** X8. On a template whose opening braces all belong to tokens, with
    brace-free keys and values without opening brace, substituting the
    result once more changes nothing. *)
Theorem substitute_idempotent (d : dict) (segs : list segment) :
  Forall (fun kv => entry_ok kv = true) d ->
  Forall (fun g => seg_ok g = true) segs ->
  substitute d (substitute d (flatten segs)) = substitute d (flatten segs).
Proof.
  intros Hd Hs. rewrite (substitute_flatten d segs) by done.
  rewrite substitute_flatten by (done || by apply fill_seg_ok).
  f_equal. rewrite map_map. apply map_ext. intros g. apply fill_seg_twice.
Qed.

Lemma substitute_idempotent_witness :
  let d := [("AGENT_ID", "a}}b"); ("NAMESPACE", "AGENT_ID")] in
  let segs := [Lit "}}"; Tok "NAMESPACE"; Lit "}} "; Tok "AGENT_ID";
               Tok "OTHER"] in
  substitute d (substitute d (flatten segs)) = substitute d (flatten segs).
Proof.
  intros d segs. apply (substitute_idempotent d segs); by repeat constructor.
Defined.

(** X18. On such a template the loop has a closed form: every token whose
    name is a key gives way to that key's value, every other token and every
    literal run stays as it is. *)
Theorem substitute_closed_form (d : dict) (segs : list segment) :
  Forall (fun kv => entry_ok kv = true) d ->
  Forall (fun g => seg_ok g = true) segs ->
  substitute d (flatten segs) = flatten (map (fill_seg d) segs)
  /\ (forall name,
        fill_seg d (Tok name)
        = match dict_lookup d name with
          | Some value => Lit value
          | None => Tok name
          end)
  /\ (forall text, fill_seg d (Lit text) = Lit text).
Proof. intros Hd Hs. split; [by apply substitute_flatten|done]. Qed.

Lemma substitute_closed_form_witness :
  substitute [("AGENT_ID", "a-1"); ("IMAGE", "img}")]
    (flatten [Lit "id: "; Tok "AGENT_ID"; Lit " owner: "; Tok "OWNER";
              Lit " }} id: "; Tok "AGENT_ID"])
  = "id: a-1 owner: {{OWNER}} }} id: a-1".
Proof.
  apply (substitute_closed_form [("AGENT_ID", "a-1"); ("IMAGE", "img}")]
           [Lit "id: "; Tok "AGENT_ID"; Lit " owner: "; Tok "OWNER";
            Lit " }} id: "; Tok "AGENT_ID"]); by repeat constructor.
Defined.

(** X9. On a template made of runs without opening brace and tokens with
    capturable names, [re.findall] returns the token names in their order of
    appearance, one per occurrence, so the placeholder set is the set of
    token names. *)
Theorem findall_tokens_in_order (segs : list segment) :
  Forall (fun g => seg_wf g = true) segs ->
  findall (flatten segs) = tok_names segs
  /\ placeholders (flatten segs) = list_to_set (tok_names segs).
Proof.
  intros Hs. unfold placeholders. by rewrite findall_flatten.
Qed.

Lemma findall_tokens_in_order_witness :
  findall (flatten [Lit "a}} "; Tok "B_2"; Tok "a"; Lit " }x"; Tok "B_2"])
  = ["B_2"; "a"; "B_2"].
Proof.
  apply (findall_tokens_in_order
           [Lit "a}} "; Tok "B_2"; Tok "a"; Lit " }x"; Tok "B_2"]).
  by repeat constructor.
Defined.

(** ** Validation: what success and each failure mean *)

Lemma check_required_ok_inv (parsed : list (yaml_value * yaml_value))
    (fields : list string) (u : unit) :
  check_required parsed fields = inr u ->
  Forall (fun f => contains parsed f = true) fields.
Proof.
  induction fields as [|f fields IH]; [by constructor|]. cbn [check_required].
  destruct (contains parsed f) eqn:E; [|done].
  intros H. constructor; [done|]. by apply IH.
Qed.

Lemma str_eq_true (v : yaml_value) (text : string) :
  str_eq v text = true -> v = YStr text.
Proof. destruct v; try done. simpl. by intros ->%String.eqb_eq. Qed.

Lemma get_or_none_str (entries : list (yaml_value * yaml_value))
    (key text : string) :
  str_eq (get_or_none entries key) text = true ->
  map_get entries key = Some (YStr text).
Proof.
  unfold get_or_none. destruct (map_get entries key) as [v|]; [|done].
  cbn [from_option id]. intros H%str_eq_true. by rewrite H.
Qed.

(** X10. What [validate_yaml] returns is the parsed document itself, and it
    is a mapping with the four required keys, kind "Pod", and a [spec]
    mapping whose runtimeClassName is "kata". *)
Theorem validate_yaml_sound (safe_load : string -> string + yaml_value)
    (text : string) (doc : yaml_value) :
  validate_yaml safe_load text = inr doc ->
  safe_load text = inr doc
  /\ exists parsed spec,
       doc = YMap parsed
       /\ Forall (fun f => contains parsed f = true) required_fields
       /\ map_get parsed "kind" = Some (YStr "Pod")
       /\ map_get parsed "spec" = Some (YMap spec)
       /\ map_get spec "runtimeClassName" = Some (YStr "kata").
Proof.
  unfold validate_yaml, raise, ret.
  destruct (safe_load text) as [diag|v]; [done|].
  destruct v as [| | | | | | | | |parsed]; try done.
  destruct (check_required parsed required_fields) as [e|u] eqn:Hr; [done|].
  cbn [bind]. destruct (str_eq (get_or_none parsed "kind") "Pod") eqn:Hk;
    [|done].
  cbn [negb]. destruct (map_get parsed "spec") as [s|] eqn:Hs.
  - cbn [from_option id]. destruct s as [| | | | | | | | |spec]; try done.
    unfold spec_get, ret. cbn [bind].
    destruct (str_eq (get_or_none spec "runtimeClassName") "kata") eqn:Hrt;
      [|done].
    cbn [negb]. intros [= <-]. split; [done|]. exists parsed, spec.
    split_and!; [done|by eapply check_required_ok_inv|
                 by apply get_or_none_str|done|by apply get_or_none_str].
  - apply check_required_ok_inv in Hr.
    rewrite Forall_forall in Hr. specialize (Hr "spec").
    unfold contains in Hr. rewrite Hs in Hr.
    discriminate Hr. unfold required_fields. set_solver.
Qed.

Lemma validate_yaml_sound_witness :
  let doc := YMap [(YStr "spec",
                    YMap [(YStr "runtimeClassName", YStr "kata")]);
                   (YStr "kind", YStr "Pod"); (YStr "metadata", YNull);
                   (YStr "apiVersion", YInt 1)] in
  let safe_load : string -> string + yaml_value := fun _ => inr doc in
  validate_yaml safe_load "spec: {runtimeClassName: kata}" = inr doc
  /\ safe_load "spec: {runtimeClassName: kata}" = inr doc.
Proof.
  intros doc safe_load. split; [reflexivity|].
  apply (validate_yaml_sound safe_load "spec: {runtimeClassName: kata}" doc).
  reflexivity.
Defined.

(** X11. When required keys are absent from the parsed mapping, the error
    names the first absent one in the order apiVersion, kind, metadata,
    spec, and only that one. *)
Theorem validate_yaml_first_missing
    (safe_load : string -> string + yaml_value) (text : string)
    (parsed : list (yaml_value * yaml_value))
    (before after : list string) (field : string) :
  safe_load text = inr (YMap parsed) ->
  required_fields = (before ++ field :: after)%list ->
  Forall (fun f => contains parsed f = true) before ->
  contains parsed field = false ->
  validate_yaml safe_load text = inl (ValidationError (MissingField field)).
Proof.
  intros H Hsplit Hb Hf.
  apply (validate_yaml_missing_field safe_load text parsed); [done|].
  rewrite Hsplit. by apply check_required_first_missing.
Qed.

Lemma validate_yaml_first_missing_witness :
  let parsed := [(YStr "apiVersion", YStr "v1"); (YStr "metadata", YMap [])] in
  let safe_load := fun _ : string => inr (YMap parsed) in
  validate_yaml safe_load "apiVersion: v1"
  = inl (ValidationError (MissingField "kind")).
Proof.
  intros parsed safe_load.
  apply (validate_yaml_first_missing safe_load "apiVersion: v1" parsed
           ["apiVersion"] ["metadata"; "spec"] "kind");
    [reflexivity|reflexivity|by repeat constructor|reflexivity].
Defined.



Lemma check_required_error (parsed : list (yaml_value * yaml_value))
    (fields : list string) (e : exn) :
  check_required parsed fields = inl e -> exists msg, e = ValidationError msg.
Proof.
  induction fields as [|f fields IH]; [done|]. cbn [check_required].
  destruct (contains parsed f); [done|]. intros [= <-]. by eexists.
Qed.



(** ** Saving: when it succeeds *)

(** X15. At a path that accepts writes, [save_rendered] succeeds exactly
    when [render_and_validate] does and raises what it raises; on success
    the file at the output path holds the text that validated. *)
Theorem save_rendered_iff_valid (safe_load : string -> string + yaml_value)
    (fs : filesystem) (self : engine) (variables : TemplateVariables)
    (output_path : string) :
  output_path ∉ locked fs ->
  let saved := save_rendered safe_load fs self variables output_path in
  let checked := render_and_validate safe_load fs self variables in
  (forall e, checked.1 = inl e -> saved.1.1 = inl e /\ saved.2 = fs)
  /\ (forall doc, checked.1 = inr doc ->
        saved.1.1 = inr output_path
        /\ exists text,
             (render fs self variables).1 = inr text
             /\ validate_yaml safe_load text = inr doc
             /\ files saved.2 !! output_path = Some text).
Proof.
  intros Hl. unfold save_rendered, render_and_validate.
  destruct (render fs self variables) as [[e|text] self'].
  - cbn [fst snd bind]. split; [by intros ? [= <-]|done].
  - cbn [fst snd bind].
    destruct (validate_yaml safe_load text) as [e|doc] eqn:Hv.
    + cbn [fst snd]. split; [by intros ? [= <-]|done].
    + unfold write_text. case_decide; [done|].
      cbn [fst snd bind ret files]. split; [done|].
      intros doc' [= <-]. split; [done|]. exists text.
      split_and!; [done|done|]. by rewrite lookup_insert_eq.
Qed.

Lemma save_rendered_iff_valid_witness :
  let doc := YMap [(YStr "apiVersion", YStr "v1"); (YStr "kind", YStr "Pod");
                   (YStr "metadata", YMap []);
                   (YStr "spec",
                    YMap [(YStr "runtimeClassName", YStr "kata")])] in
  let safe_load : string -> string + yaml_value := fun _ => inr doc in
  let self := {| template_path := "pod.yaml";
                 _template_content := Some "name: {{AGENT_ID}}" |} in
  let fs := {| files := {[ "out.yaml" := "old" ]}; locked := {[ "ro.yaml" ]} |} in
  let saved := save_rendered safe_load fs self (default_variables "a")
                 "out.yaml" in
  saved.1.1 = inr "out.yaml"
  /\ exists text,
       (render fs self (default_variables "a")).1 = inr text
       /\ validate_yaml safe_load text = inr doc
       /\ files saved.2 !! "out.yaml" = Some text.
Proof.
  intros doc safe_load self fs saved.
  refine (proj2 (save_rendered_iff_valid safe_load fs self
                   (default_variables "a") "out.yaml" _) doc _).
  - by vm_compute.
  - reflexivity.
Defined.

(** ** Formatting helpers: shape of the fragments *)

Lemma no_open_join (lines : list string) :
  Forall (fun line => no_open line = true) lines ->
  no_open (join newline lines) = true.
Proof.
  induction 1 as [|x [|y lines] Hx Hl IH]; [done|done|].
  rewrite join_cons. apply no_open_app. split; [done|].
  apply no_open_app. by split.
Qed.

Lemma no_open_concat (blocks : list (list string)) :
  Forall (Forall (fun line => no_open line = true)) blocks ->
  Forall (fun line => no_open line = true) (concat blocks).
Proof.
  induction 1 as [|b blocks Hb _ IH]; [by constructor|].
  cbn [concat]. by apply Forall_app.
Qed.

Lemma format_volumes_lines
    (volumes : list (string * list (string * prop_value)))
    (init : list string) :
  fold_left
    (fun lines vol =>
       fold_left
         (fun lines kv =>
            match kv.2 with
            | PDict items =>
                fold_left
                  (fun lines sub =>
                     (lines ++ ["      " +:+ sub.1 +:+ ": " +:+ sub.2])%list)
                  items
                  (lines ++ ["    " +:+ kv.1 +:+ ":"])%list
            | PScalar repr =>
                (lines ++ ["    " +:+ kv.1 +:+ ": " +:+ repr])%list
            end)
         vol.2
         (lines ++ [""] ++ ["  - name: " +:+ vol.1])%list)
    volumes init
  = (init ++ concat (map (fun vol => "" :: volume_block vol) volumes))%list.
Proof.
  rewrite <- (fold_left_append (fun vol => "" :: volume_block vol)).
  apply fold_left_ext. intros lines vol.
  rewrite (fold_left_ext _ (fun lines kv => (lines ++ prop_lines kv)%list))
    by (intros; apply prop_lines_fold).
  rewrite fold_left_append. unfold volume_block.
  by rewrite <- !app_assoc.
Qed.

Lemma dict_blocks_no_open (block : string * string -> list string) (d : dict) :
  (forall kv, no_open kv.1 = true -> no_open kv.2 = true ->
     Forall (fun line => no_open line = true) (block kv)) ->
  dict_no_open d = true ->
  Forall (Forall (fun line => no_open line = true))
    (map (fun kv => "" :: block kv) d).
Proof.
  intros Hb Hd. apply Forall_map, Forall_forall. intros kv Hin.
  unfold dict_no_open in Hd. rewrite forallb_forall in Hd.
  apply list_elem_of_In, Hd, andb_true_iff in Hin as [Hk Hv].
  constructor; [done|]. by apply Hb.
Qed.

Lemma prop_lines_no_open (kv : string * prop_value) :
  prop_no_open kv = true ->
  Forall (fun line => no_open line = true) (prop_lines kv).
Proof.
  unfold prop_no_open, prop_lines. intros [Hk Hv]%andb_true_iff.
  destruct kv.2 as [items|repr].
  - constructor; [by repeat (apply no_open_app; split)|].
    apply Forall_map, Forall_forall. intros sub Hin.
    unfold dict_no_open in Hv. rewrite forallb_forall in Hv.
    apply list_elem_of_In, Hv, andb_true_iff in Hin as [H1 H2].
    by repeat (apply no_open_app; split).
  - repeat constructor. by repeat (apply no_open_app; split).
Qed.

Lemma volume_blocks_no_open
    (volumes : list (string * list (string * prop_value))) :
  volumes_no_open volumes = true ->
  Forall (Forall (fun line => no_open line = true))
    (map (fun vol => "" :: volume_block vol) volumes).
Proof.
  intros Hv. apply Forall_map, Forall_forall. intros vol Hin.
  unfold volumes_no_open in Hv. rewrite forallb_forall in Hv.
  apply list_elem_of_In, Hv, andb_true_iff in Hin as [Hn Hp].
  constructor; [done|]. unfold volume_block.
  constructor; [by apply no_open_app|].
  apply no_open_concat, Forall_map, Forall_forall. intros kv Hin.
  rewrite forallb_forall in Hp. by apply prop_lines_no_open, Hp, list_elem_of_In.
Qed.

(** X16. A fragment built from keys and values without opening brace has no
    opening brace itself, so it can serve as a value of the variable set
    without creating or completing any token. *)
Theorem format_helpers_no_open (env_dict mounts : dict)
    (volumes : list (string * list (string * prop_value))) :
  (dict_no_open env_dict = true -> no_open (format_env_vars env_dict) = true)
  /\ (dict_no_open mounts = true ->
      no_open (format_volume_mounts mounts) = true)
  /\ (volumes_no_open volumes = true ->
      no_open (format_volumes volumes) = true).
Proof.
  split_and!.
  - intros Hd. destruct env_dict as [|e es]; [done|].
    unfold format_env_vars.
    rewrite (fold_left_append (fun kv => "" :: env_block kv)).
    apply no_open_join, no_open_concat, dict_blocks_no_open; [|done].
    intros kv Hk Hv. unfold env_block.
    repeat constructor; by repeat (apply no_open_app; split).
  - intros Hd. destruct mounts as [|e es]; [done|].
    unfold format_volume_mounts.
    rewrite (fold_left_append (fun kv => "" :: mount_block kv)).
    apply no_open_join, no_open_concat, dict_blocks_no_open; [|done].
    intros kv Hk Hv. unfold mount_block.
    repeat constructor; by repeat (apply no_open_app; split).
  - intros Hv. destruct volumes as [|e es]; [done|].
    unfold format_volumes. rewrite format_volumes_lines.
    by apply no_open_join, no_open_concat, volume_blocks_no_open.
Qed.

Lemma join_blank_first (x : string) (lines : list string) :
  exists rest, join newline ("" :: x :: lines) = newline +:+ x +:+ rest.
Proof.
  rewrite join_cons, sapp_nil_l. destruct lines as [|y lines].
  - exists "". by rewrite sapp_nil_r.
  - rewrite join_cons. by eexists.
Qed.

(** X17. For a non-empty mapping each helper's text begins with a line
    break followed by the name item of the first entry (indented by four
    spaces for environment variables and mounts, by two for volumes), so it
    is never the empty-list marker. *)
Theorem format_helpers_first_line (e : string * string) (es : dict)
    (vol : string * list (string * prop_value))
    (vols : list (string * list (string * prop_value))) :
  (exists rest,
     format_env_vars (e :: es)
     = newline +:+ ("    - name: " +:+ e.1) +:+ rest)
  /\ (exists rest,
        format_volume_mounts (e :: es)
        = newline +:+ ("    - name: " +:+ e.1) +:+ rest)
  /\ (exists rest,
        format_volumes (vol :: vols)
        = newline +:+ ("  - name: " +:+ vol.1) +:+ rest)
  /\ format_env_vars (e :: es) <> " []"
  /\ format_volume_mounts (e :: es) <> " []"
  /\ format_volumes (vol :: vols) <> " []".
Proof.
  assert (exists rest, format_env_vars (e :: es)
            = newline +:+ ("    - name: " +:+ e.1) +:+ rest) as H1.
  { unfold format_env_vars.
    rewrite (fold_left_append (fun kv => "" :: env_block kv)).
    apply join_blank_first. }
  assert (exists rest, format_volume_mounts (e :: es)
            = newline +:+ ("    - name: " +:+ e.1) +:+ rest) as H2.
  { unfold format_volume_mounts.
    rewrite (fold_left_append (fun kv => "" :: mount_block kv)).
    apply join_blank_first. }
  assert (exists rest, format_volumes (vol :: vols)
            = newline +:+ ("  - name: " +:+ vol.1) +:+ rest) as H3.
  { unfold format_volumes. rewrite format_volumes_lines.
    apply join_blank_first. }
  split_and!; [done|done|done|..].
  - destruct H1 as [rest ->]. discriminate.
  - destruct H2 as [rest ->]. discriminate.
  - destruct H3 as [rest ->]. discriminate.
Qed.

Lemma format_helpers_no_open_witness :
  no_open (format_env_vars [("LOG_LEVEL", "info"); ("MODE", "a}b")]) = true.
Proof.
  apply (format_helpers_no_open [("LOG_LEVEL", "info"); ("MODE", "a}b")] [] []).
  reflexivity.
Defined.

(** Names with characters beyond ASCII: U+00E9 (a letter) and U+00B2 (a
    numeric character) are word characters, U+00D7 (the multiplication sign)
    is not, so [{{caf\u00e9}}] and [{{x\u00b2}}] are placeholders and
    [{{a\u00d7b}}] is plain text. *)
Example findall_beyond_ascii :
  findall ("id: {{caf" +:+ String "233"%char "}} {{AGENT_ID}} {{a"
           +:+ String "215"%char "b}} {{x" +:+ String "178"%char "}}")
  = ["caf" +:+ String "233"%char ""; "AGENT_ID";
     "x" +:+ String "178"%char ""].
Proof. reflexivity. Qed.

Example render_beyond_ascii :
  render_text ("id: {{caf" +:+ String "233"%char "}} {{AGENT_ID}}")
    (to_dict (default_variables "a"))
  = inl (RenderingError {[ "caf" +:+ String "233"%char "" ]}).
Proof. by vm_compute. Qed.
